(** * morning-read: the Notion publisher ([src/utils/notion.ts])

    A shallow embedding of [NotionService]: the line-oriented converter
    [convertContentToBlocks] with its helpers [createHeadingBlock],
    [createParagraphBlock], [createBulletedListItemBlock] and
    [parseRichText], the ordinal day title [getOrdinalSuffix], and the
    asynchronous methods [handlePageContext], [createDayPage] and
    [updateMorningBriefDb], which talk to the remote document store.

    JavaScript strings are sequences of UTF-16 code units; a code unit is
    a number [N] here, and [js "..."] turns a literal into such a
    sequence. *)

From Stdlib Require Import String Ascii DecimalString.
From Stdlib Require Import List Bool Arith NArith ZArith Lia.
Import ListNotations.

(** ** JavaScript strings *)

Module JsString.

Definition char := N.
Definition str := list char.

Definition js (s : string) : str :=
  map N_of_ascii (list_ascii_of_string s).

Arguments js s%_string.

Definition char_eqb (a b : char) : bool := N.eqb a b.

Fixpoint str_eqb (a b : str) : bool :=
  match a, b with
  | [], [] => true
  | x :: a', y :: b' => char_eqb x y && str_eqb a' b'
  | _, _ => false
  end.

(** [s.startsWith(p)] *)
Fixpoint startsWith (p s : str) : bool :=
  match p, s with
  | [], _ => true
  | x :: p', y :: s' => char_eqb x y && startsWith p' s'
  | _ :: _, [] => false
  end.

(** [s.includes(p)]: [p] occurs at some index of [s]. *)
Fixpoint includes (p s : str) : bool :=
  startsWith p s ||
  match s with
  | [] => false
  | _ :: s' => includes p s'
  end.

(** [s.substring(n)] for a literal [n >= 0]. *)
Definition substring (n : nat) (s : str) : str := skipn n s.

(** [s.slice(1, -1)]: from index 1 up to, not including, the last index;
    empty when the string has fewer than two code units. *)
Definition slice_1_m1 (s : str) : str :=
  firstn (length s - 1 - 1) (skipn 1 s).

(** Code units that the regular-expression atom [.] refuses
    (LineTerminator: LF, CR, U+2028, U+2029). *)
Definition isLineTerminator (c : char) : bool :=
  (c =? 10)%N || (c =? 13)%N || (c =? 8232)%N || (c =? 8233)%N.

(** Code units removed by [trim]: WhiteSpace and LineTerminator. *)
Definition isWhiteSpace (c : char) : bool :=
  (c =? 9)%N || (c =? 11)%N || (c =? 12)%N || (c =? 32)%N ||
  (c =? 160)%N || (c =? 5760)%N ||
  ((8192 <=? c)%N && (c <=? 8202)%N) ||
  (c =? 8239)%N || (c =? 8287)%N || (c =? 12288)%N || (c =? 65279)%N.

Definition isTrimmed (c : char) : bool :=
  isWhiteSpace c || isLineTerminator c.

Fixpoint trimStart (s : str) : str :=
  match s with
  | [] => []
  | c :: s' => if isTrimmed c then trimStart s' else s
  end.

Definition trimEnd (s : str) : str := rev (trimStart (rev s)).

(** [s.trim()] *)
Definition trim (s : str) : str := trimEnd (trimStart s).

(** [s.split(sep)] with a string separator.  [skip] counts the code
    units of the separator found last that are still to be passed over,
    [piece] is the substring collected since then, most recent first. *)
Fixpoint splitLoop (sep : str) (skip : nat) (piece : str) (s : str)
  : list str :=
  match s with
  | [] => [rev piece]
  | c :: s' =>
      match skip with
      | S k => splitLoop sep k piece s'
      | O =>
          if startsWith sep s
          then rev piece :: splitLoop sep (length sep - 1) [] s'
          else splitLoop sep 0 (c :: piece) s'
      end
  end.

Definition split (sep : str) (s : str) : list str :=
  match sep with
  | [] => map (fun c => [c]) s
  | _ :: _ => splitLoop sep 0 [] s
  end.

End JsString.
Import JsString.

(** ** The two regular expressions of the source

    Both are sequences of literal code units and lazy [.*?] atoms, so a
    pattern is a list of such atoms and matching is the backtracking
    search of the language: a lazy atom first tries the rest of the
    pattern where it stands and only then takes one more code unit. *)

Module RegExp.

Inductive atom : Type :=
| Lit (c : char)
| LazyAny.

Definition pattern := list atom.

(** Match [p] anchored at the head of the string; the result is the
    number of code units matched. *)
Fixpoint matchHere (p : pattern) : str -> option nat :=
  match p with
  | [] => fun _ => Some 0
  | Lit c :: p' =>
      fun s =>
        match s with
        | x :: s' =>
            if char_eqb x c then option_map S (matchHere p' s') else None
        | [] => None
        end
  | LazyAny :: p' =>
      fix lazy (s : str) : option nat :=
        match matchHere p' s with
        | Some n => Some n
        | None =>
            match s with
            | x :: s' =>
                if isLineTerminator x then None else option_map S (lazy s')
            | [] => None
            end
        end
  end.

Definition lits (s : string) : pattern := map Lit (js s).

(** [/(\[.*?\]\(.*?\))/] *)
Definition linkPattern : pattern :=
  lits "[" ++ [LazyAny] ++ lits "](" ++ [LazyAny] ++ lits ")".

(** [/@\(\[.*?\]\(.*?\)\)/g] *)
Definition placeholderPattern : pattern :=
  lits "@([" ++ [LazyAny] ++ lits "](" ++ [LazyAny] ++ lits "))".

(** [s.split(/(p)/)]: the substrings between the matches of [p], with
    each match (the capture group) kept between them.  [skip] is the
    distance from the current index to the end of the last match. *)
Fixpoint splitCaptureLoop (p : pattern) (skip : nat) (piece : str) (s : str)
  : list str :=
  match s with
  | [] => [rev piece]
  | c :: s' =>
      match skip with
      | S k => splitCaptureLoop p k piece s'
      | O =>
          match matchHere p s with
          | Some (S n) =>
              rev piece :: firstn (S n) s :: splitCaptureLoop p n [] s'
          | _ => splitCaptureLoop p 0 (c :: piece) s'
          end
      end
  end.

Definition splitCapture (p : pattern) (s : str) : list str :=
  splitCaptureLoop p 0 [] s.

(** [s.replace(/p/g, "")]: every match of [p], found left to right and
    never overlapping, is removed. *)
Fixpoint removeAllLoop (p : pattern) (skip : nat) (s : str) : str :=
  match s with
  | [] => []
  | c :: s' =>
      match skip with
      | S k => removeAllLoop p k s'
      | O =>
          match matchHere p s with
          | Some (S n) => removeAllLoop p n s'
          | _ => c :: removeAllLoop p 0 s'
          end
      end
  end.

Definition removeAll (p : pattern) (s : str) : str := removeAllLoop p 0 s.

End RegExp.
Import RegExp.

(** ** Blocks *)

(** A rich-text item [{ type: "text", text: { content, link?: { url } } }].
    The [url] of a link is the second piece of a split and is [undefined]
    ([None]) when the split has a single piece. *)
Inductive RichText : Type :=
| PlainText (content : str)
| Link (content : str) (url : option str).

Inductive headingType : Type := heading_1 | heading_2 | heading_3.

Inductive Block : Type :=
| Heading (type : headingType) (rich_text : list RichText)
| Paragraph (rich_text : list RichText)
| BulletedListItem (rich_text : list RichText).

(** The body of the [map] callback of [parseRichText]. *)
Definition parsePart (part : str) : RichText :=
  if startsWith (js "[") part && includes (js "](") part
  then
    let pieces := split (js "](") (slice_1_m1 part) in
    Link (nth 0 pieces []) (nth_error pieces 1)
  else PlainText part.

Definition parseRichText (content : str) : list RichText :=
  map parsePart (splitCapture linkPattern content).

Definition createHeadingBlock (content : str) (type : headingType) : Block :=
  let filteredContent := removeAll placeholderPattern content in
  Heading type [PlainText (trim filteredContent)].

(** [null] is [None]. *)
Definition createParagraphBlock (content : str) : option Block :=
  let filteredContent :=
    if includes (js "AI Summarized") content then [] else content in
  match filteredContent with
  | [] => None
  | _ :: _ => Some (Paragraph (parseRichText filteredContent))
  end.

Definition createBulletedListItemBlock (content : str) : Block :=
  BulletedListItem (parseRichText content).

(** ** convertContentToBlocks *)

(** The variables of the loop: [blocks] (with the [null]s that
    [createParagraphBlock] may return), [currentParagraph] and
    [skipIntroduction]. *)
Record loopState : Type := mkLoop {
  blocks : list (option Block);
  currentParagraph : str;
  skipIntroduction : bool
}.

Definition push (b : option Block) (st : loopState) : loopState :=
  mkLoop (blocks st ++ [b]) (currentParagraph st) (skipIntroduction st).

(** [if (currentParagraph) { blocks.push(createParagraphBlock(currentParagraph));
    currentParagraph = ""; }] *)
Definition flushParagraph (st : loopState) : loopState :=
  match currentParagraph st with
  | [] => st
  | _ :: _ =>
      mkLoop (blocks st ++ [createParagraphBlock (currentParagraph st)])
             [] (skipIntroduction st)
  end.

(** One iteration of [for (const line of lines)]. *)
Definition step (st : loopState) (line : str) : loopState :=
  if skipIntroduction st then
    if str_eqb (trim line) (js "---")
    then mkLoop (blocks st) (currentParagraph st) false
    else st
  else if startsWith (js "# ") line then
    push (Some (createHeadingBlock (substring 2 line) heading_1))
         (flushParagraph st)
  else if startsWith (js "## ") line then
    push (Some (createHeadingBlock (substring 3 line) heading_2))
         (flushParagraph st)
  else if startsWith (js "### ") line then
    push (Some (createHeadingBlock (substring 4 line) heading_3))
         (flushParagraph st)
  else if startsWith (js "- ") line then
    push (Some (createBulletedListItemBlock (substring 2 line)))
         (flushParagraph st)
  else if str_eqb (trim line) (js "") then
    flushParagraph st
  else
    mkLoop (blocks st) (currentParagraph st ++ line) (skipIntroduction st).

Definition initialState : loopState := mkLoop [] [] true.

(** [blocks.filter((block) => block !== null)] *)
Fixpoint dropNulls (bs : list (option Block)) : list Block :=
  match bs with
  | [] => []
  | Some b :: bs' => b :: dropNulls bs'
  | None :: bs' => dropNulls bs'
  end.

(** The statements after the loop: the last flush (which leaves
    [currentParagraph] as it is) and the filter. *)
Definition finish (st : loopState) : list Block :=
  dropNulls
    match currentParagraph st with
    | [] => blocks st
    | _ :: _ => blocks st ++ [createParagraphBlock (currentParagraph st)]
    end.

Definition newline : str := [10%N].

Definition convertLines (lines : list str) : list Block :=
  finish (fold_left step lines initialState).

Definition convertContentToBlocks (content : str) : list Block :=
  convertLines (split newline content).

(** ** getOrdinalSuffix *)

(** [a[i]] for an array of strings and a number that is an integer:
    [undefined] outside the array. *)
Definition arrayGet (a : list str) (i : Z) : option str :=
  if (i <? 0)%Z then None else nth_error a (Z.to_nat i).

(** [x || y] on values that are a string or [undefined]: the empty
    string and [undefined] are falsy. *)
Definition jsOr (x y : option str) : option str :=
  match x with
  | Some (_ :: _) => x
  | _ => y
  end.

(** The decimal numeral of an integer, as [n + "..."] writes it. *)
Definition numberToString (n : Z) : str :=
  js (NilZero.string_of_int (Z.to_int n)).

Definition stringOf (x : option str) : str :=
  match x with
  | Some t => t
  | None => js "undefined"
  end.

Definition suffixes : list str := [js "th"; js "st"; js "nd"; js "rd"].

(** The expression [s[(v - 20) % 10] || s[v] || s[0]]; [%] is the
    remainder that takes the sign of the dividend. *)
Definition ordinalSuffixOf (n : Z) : option str :=
  let s := suffixes in
  let v := Z.rem n 100 in
  jsOr (jsOr (arrayGet s (Z.rem (v - 20) 10)) (arrayGet s v)) (arrayGet s 0).

Definition getOrdinalSuffix (n : Z) : str :=
  numberToString n ++ stringOf (ordinalSuffixOf n).

(** ** The remote document store and the asynchronous methods *)

Module Notion.

(** What a rejected call or a [throw] carries.  The source only ever
    writes a caught value into a template literal, so a value rejected
    by the client is known by its string; [new Error(m)] prints as
    [Error: m]. *)
Inductive thrown : Type :=
| Rejected (rendering : str)
| ErrorObject (message : str).

Definition toString (e : thrown) : str :=
  match e with
  | Rejected r => r
  | ErrorObject m => js "Error: " ++ m
  end.

(** An entry of [response.results]: a partial block has no [type]; a
    block of type [child_page] carries [child_page.title]. *)
Record BlockObject : Type := mkBlockObject {
  block_id : str;
  block_type : option str;
  child_page : option str
}.

Record ListResponse : Type := mkListResponse {
  results : list BlockObject
}.

Record PageObject : Type := mkPageObject {
  page_id : str
}.

(** The argument of [notion.pages.create]: the parent page, the content
    of the title property, and [children] when given. *)
Record CreatePageParameters : Type := mkCreate {
  parent : str;
  title : str;
  children : option (list Block)
}.

Inductive locale : Type := locale_default | locale_en_US.

(** [new Date()]: the day of the month and the long month name that
    [toLocaleString(locale, { month: "long" })] gives. *)
Record Date : Type := mkDate {
  getDate : Z;
  monthLong : locale -> str
}.

(** Modelled from the spec: the type [Digest] of [src/types], of which
    the service reads the field [content], a string. *)
Record Digest : Type := mkDigest {
  content : str
}.

(** An asynchronous computation: the awaited client calls with both of
    their outcomes, the clock, the console, and the call of the
    converter method. *)
Inductive Async (A : Type) : Type :=
| Return (a : A)
| Throw (e : thrown)
| AwaitList (id : str) (k : thrown + ListResponse -> Async A)
| AwaitCreate (params : CreatePageParameters)
              (k : thrown + PageObject -> Async A)
| NewDate (k : Date -> Async A)
| ConsoleError (label : str) (e : thrown) (k : Async A)
| Convert (text : str) (k : list Block -> Async A).

Arguments Return {A} a.
Arguments Throw {A} e.
Arguments AwaitList {A} id k.
Arguments AwaitCreate {A} params k.
Arguments NewDate {A} k.
Arguments ConsoleError {A} label e k.
Arguments Convert {A} text k.

Fixpoint bind {A B : Type} (m : Async A) (f : A -> Async B) : Async B :=
  match m with
  | Return a => f a
  | Throw e => Throw e
  | AwaitList id k => AwaitList id (fun r => bind (k r) f)
  | AwaitCreate ps k => AwaitCreate ps (fun r => bind (k r) f)
  | NewDate k => NewDate (fun d => bind (k d) f)
  | ConsoleError l e k => ConsoleError l e (bind k f)
  | Convert t k => Convert t (fun bs => bind (k bs) f)
  end.

(** [try { m } catch (error) { h error }] *)
Fixpoint tryCatch {A : Type} (m : Async A) (h : thrown -> Async A)
  : Async A :=
  match m with
  | Return a => Return a
  | Throw e => h e
  | AwaitList id k => AwaitList id (fun r => tryCatch (k r) h)
  | AwaitCreate ps k => AwaitCreate ps (fun r => tryCatch (k r) h)
  | NewDate k => NewDate (fun d => tryCatch (k d) h)
  | ConsoleError l e k => ConsoleError l e (tryCatch k h)
  | Convert t k => Convert t (fun bs => tryCatch (k bs) h)
  end.

Definition settle {A R : Type} (r : thrown + R) (k : R -> Async A)
  : Async A :=
  match r with
  | inl e => Throw e
  | inr v => k v
  end.

Notation "x <- m ;; k" := (bind m (fun x => k))
  (at level 61, m at next level, right associativity).

Definition blocks_children_list (id : str) : Async ListResponse :=
  AwaitList id (fun r => settle r Return).

Definition pages_create (ps : CreatePageParameters) : Async PageObject :=
  AwaitCreate ps (fun r => settle r Return).

Definition newDate : Async Date := NewDate Return.

Definition console_error (label : str) (e : thrown) : Async unit :=
  ConsoleError label e (Return tt).

Definition this_convertContentToBlocks (text : str) : Async (list Block) :=
  Convert text Return.

(** What [handlePageContext] returns: a block of the listing or the
    page that [pages.create] answered with; both have an [id]. *)
Inductive MonthPage : Type :=
| ExistingPage (b : BlockObject)
| CreatedPage (p : PageObject).

Definition id (p : MonthPage) : str :=
  match p with
  | ExistingPage b => block_id b
  | CreatedPage q => page_id q
  end.

(** ["type" in block && block.type === "child_page"] *)
Definition isChildPage (b : BlockObject) : bool :=
  match block_type b with
  | Some t => str_eqb t (js "child_page")
  | None => false
  end.

(** The test of the loop body:
    ["child_page" in page] and [pageTitle.includes(currentMonth)]. *)
Definition titleHasMonth (currentMonth : str) (page : BlockObject) : bool :=
  match child_page page with
  | Some pageTitle => includes currentMonth pageTitle
  | None => false
  end.

Definition defaultParentId : str :=
  js "75b22e80-f388-41e8-a02c-2a88d879df5b".

Definition handlePageContext (parentId : str) : Async MonthPage :=
  response <- blocks_children_list parentId ;;
  let nestedPages := filter isChildPage (results response) in
  date <- newDate ;;
  let currentMonth := monthLong date locale_default in
  match find (titleHasMonth currentMonth) nestedPages with
  | Some page => Return (ExistingPage page)
  | None =>
      newMonthPage <- pages_create (mkCreate parentId currentMonth None) ;;
      Return (CreatedPage newMonthPage)
  end.

Definition createDayPage (monthPageId : str) (digest : Digest)
  : Async PageObject :=
  date <- newDate ;;
  let day := getDate date in
  let month := monthLong date locale_en_US in
  let title := month ++ js " " ++ getOrdinalSuffix day in
  tryCatch
    (blocks <- this_convertContentToBlocks (content digest) ;;
     response <- pages_create (mkCreate monthPageId title (Some blocks)) ;;
     Return response)
    (fun error =>
       _ <- console_error (js "Error creating day page in Notion:") error ;;
       Throw (ErrorObject
                (js "Failed to create day page in Notion: "
                 ++ toString error))).

Definition updateMorningBriefDb (digest : Digest) : Async PageObject :=
  tryCatch
    (monthPage <- handlePageContext defaultParentId ;;
     dayPage <- createDayPage (id monthPage) digest ;;
     Return dayPage)
    (fun error =>
       _ <- console_error (js "Error updating Notion:") error ;;
       Throw (ErrorObject (js "Notion Error: " ++ toString error))).

(** *** Running a computation against a store

    The store and the clock are any state machine [W]; a run returns the
    outcome, the final state and what happened, in order. *)

Inductive event : Type :=
| EvList (id : str) (outcome : thrown + ListResponse)
| EvCreate (params : CreatePageParameters) (outcome : thrown + PageObject)
| EvDate (d : Date)
| EvConsoleError (label : str) (e : thrown)
| EvConvert (text : str).

Record Remote (W : Type) : Type := mkRemote {
  list_children : str -> W -> (thrown + ListResponse) * W;
  create_page : CreatePageParameters -> W -> (thrown + PageObject) * W;
  clock : W -> Date * W
}.

Arguments mkRemote {W} _ _ _.
Arguments list_children {W} r _ _.
Arguments create_page {W} r _ _.
Arguments clock {W} r _.

Fixpoint run {W A : Type} (R : Remote W) (m : Async A) (w : W)
  : (thrown + A) * W * list event :=
  match m with
  | Return a => (inr a, w, [])
  | Throw e => (inl e, w, [])
  | AwaitList i k =>
      let '(r, w1) := list_children R i w in
      let '(res, w2, tr) := run R (k r) w1 in
      (res, w2, EvList i r :: tr)
  | AwaitCreate ps k =>
      let '(r, w1) := create_page R ps w in
      let '(res, w2, tr) := run R (k r) w1 in
      (res, w2, EvCreate ps r :: tr)
  | NewDate k =>
      let '(d, w1) := clock R w in
      let '(res, w2, tr) := run R (k d) w1 in
      (res, w2, EvDate d :: tr)
  | ConsoleError l e k =>
      let '(res, w2, tr) := run R k w in
      (res, w2, EvConsoleError l e :: tr)
  | Convert t k =>
      let '(res, w2, tr) := run R (k (convertContentToBlocks t)) w in
      (res, w2, EvConvert t :: tr)
  end.

(** Readings of a trace. *)
Definition isFailure (ev : event) : bool :=
  match ev with
  | EvList _ (inl _) | EvCreate _ (inl _) => true
  | _ => false
  end.

Definition isRemote (ev : event) : bool :=
  match ev with
  | EvList _ _ | EvCreate _ _ => true
  | _ => false
  end.

Definition isCreate (ev : event) : bool :=
  match ev with
  | EvCreate _ _ => true
  | _ => false
  end.

Definition isConvert (ev : event) : bool :=
  match ev with
  | EvConvert _ => true
  | _ => false
  end.

(** No client call follows a failed one. *)
Fixpoint stopsAtFailure (tr : list event) : bool :=
  match tr with
  | [] => true
  | ev :: tr' =>
      (if isFailure ev then negb (existsb isRemote tr') else true)
      && stopsAtFailure tr'
  end.

(** The values with which client calls were rejected. *)
Fixpoint failures (tr : list event) : list thrown :=
  match tr with
  | [] => []
  | EvList _ (inl e) :: tr' => e :: failures tr'
  | EvCreate _ (inl e) :: tr' => e :: failures tr'
  | _ :: tr' => failures tr'
  end.

(** The error that [updateMorningBriefDb] throws for a caught value. *)
Definition notionError (caught : thrown) : thrown :=
  ErrorObject (js "Notion Error: " ++ toString caught).

(** The error that [createDayPage] throws for a caught value. *)
Definition dayPageError (caught : thrown) : thrown :=
  ErrorObject (js "Failed to create day page in Notion: " ++ toString caught).

(** *** Stores for the examples *)

Definition sampleDate : Date := mkDate 3 (fun _ => js "March").

Definition februaryPage : BlockObject :=
  mkBlockObject (js "p1") (Some (js "child_page")) (Some (js "February")).

Definition marchPage : BlockObject :=
  mkBlockObject (js "p2") (Some (js "child_page")) (Some (js "March")).

Definition marchNotesPage : BlockObject :=
  mkBlockObject (js "p3") (Some (js "child_page")) (Some (js "March Notes")).

Definition textBlock : BlockObject :=
  mkBlockObject (js "b0") (Some (js "paragraph")) None.

Definition sampleListing : ListResponse :=
  mkListResponse [textBlock; februaryPage; marchPage; marchNotesPage].

Definition newPage : PageObject := mkPageObject (js "new").

(** A store that lists [listing], creates every page asked for and
    counts the pages created. *)
Definition storeWith (listing : ListResponse) : Remote nat :=
  mkRemote
    (fun _ n => (inr listing, n))
    (fun _ n => (inr newPage, S n))
    (fun n => (sampleDate, n)).

(** A store that lists [listing] and rejects every creation. *)
Definition readOnlyStore (listing : ListResponse) : Remote nat :=
  mkRemote
    (fun _ n => (inr listing, n))
    (fun _ n => (inl (Rejected (js "validation_error")), n))
    (fun n => (sampleDate, n)).

End Notion.
Import Notion.

(** ** The rule of the spec for the ordinal suffix *)

(** The suffix as the specification words it: [th] for 11, 12 and 13
    modulo 100, otherwise by the last digit.  It is compared with
    [ordinalSuffixOf], which is the expression of the source. *)
Definition ordinalRule (d : Z) : str :=
  let h := (d mod 100)%Z in
  if (h =? 11)%Z || (h =? 12)%Z || (h =? 13)%Z then js "th"
  else
    let u := (d mod 10)%Z in
    if (u =? 1)%Z then js "st"
    else if (u =? 2)%Z then js "nd"
    else if (u =? 3)%Z then js "rd"
    else js "th".

(** The state in which the loop is once the separator has been read. *)
Definition collecting (bs : list (option Block)) (paragraph : str)
  : loopState :=
  mkLoop bs paragraph false.

(** The blocks of the lines that follow the separator. *)
Definition collectLines (lines : list str) : list Block :=
  finish (fold_left step lines (collecting [] [])).

(** What a flush of the text [acc] adds to the output. *)
Definition flushed (acc : str) : list Block :=
  match acc with
  | [] => []
  | _ :: _ =>
      if includes (js "AI Summarized") acc then []
      else [Paragraph (parseRichText acc)]
  end.

(** A paragraph of the output that comes from a flush of a text that
    is not empty and has no [AI Summarized] in it. *)
Definition fromFlush (rich_text : list RichText) : Prop :=
  rich_text <> []
  /\ exists acc, acc <> js ""
                 /\ includes (js "AI Summarized") acc = false
                 /\ rich_text = parseRichText acc.

Definition paragraphsFromFlush (bs : list (option Block)) : Prop :=
  forall rich_text, In (Some (Paragraph rich_text)) bs -> fromFlush rich_text.

(** ** Readings of the tokens of [parseRichText] *)

(** The whole of [part] is one match of the link pattern. *)
Definition wrapsLink (part : str) : bool :=
  match matchHere linkPattern part with
  | Some n => Nat.eqb n (length part)
  | None => false
  end.

(** The tokens at the odd indices of a split with a capture group: the
    matches. *)
Fixpoint odds (tokens : list str) : list str :=
  match tokens with
  | _ :: m :: rest => m :: odds rest
  | _ => []
  end.

(** The surface text of a span: a link gets its brackets back. *)
Definition renderSpan (span : RichText) : str :=
  match span with
  | PlainText content => content
  | Link content url =>
      js "[" ++ content ++ js "](" ++ stringOf url ++ js ")"
  end.

Definition render (spans : list RichText) : str :=
  concat (map renderSpan spans).

(** A token [[t](u)] whose [t] and [u] are free of the separator. *)
Definition SimpleLink (part : str) : Prop :=
  exists t u,
    part = js "[" ++ t ++ js "](" ++ u ++ js ")"
    /\ includes (js "](") t = false
    /\ includes (js "](") u = false.

(** A token that [parsePart] keeps as it is, or a simple link. *)
Definition Faithful (part : str) : Prop :=
  startsWith (js "[") part && includes (js "](") part = false
  \/ SimpleLink part.

(** ** More readings of a trace *)

Definition isList (ev : event) : bool :=
  match ev with
  | EvList _ _ => true
  | _ => false
  end.

(** A creation without children: the month page. *)
Definition isMonthCreate (ev : event) : bool :=
  match ev with
  | EvCreate ps _ =>
      match children ps with
      | None => true
      | Some _ => false
      end
  | _ => false
  end.

(** A creation with children: the day page. *)
Definition isDayCreate (ev : event) : bool :=
  match ev with
  | EvCreate ps _ =>
      match children ps with
      | None => false
      | Some _ => true
      end
  | _ => false
  end.

Definition isDate (ev : event) : bool :=
  match ev with
  | EvDate _ => true
  | _ => false
  end.

(** ** Texts made of gaps and links *)

(** The surface text [[t](u)] of a link. *)
Definition linkText (t u : str) : str :=
  js "[" ++ t ++ js "](" ++ u ++ js ")".

(** A text written as gaps, each followed by a link, and a tail. *)
Fixpoint surface (items : list (str * str * str)) (tail : str) : str :=
  match items with
  | [] => tail
  | (gap, t, u) :: rest => gap ++ linkText t u ++ surface rest tail
  end.

(** The spans one expects for such a text. *)
Fixpoint spansOf (items : list (str * str * str)) (tail : str)
  : list RichText :=
  match items with
  | [] => [PlainText tail]
  | (gap, t, u) :: rest =>
      PlainText gap :: Link t (Some u) :: spansOf rest tail
  end.

(** The gap has no [[]; the text of the link has no []] and the url
    neither []] nor [)]; neither has a line terminator. *)
Definition plainItem (item : str * str * str) : Prop :=
  let '(gap, t, u) := item in
  Forall (fun c => c <> 91%N) gap
  /\ Forall (fun c => c <> 93%N /\ isLineTerminator c = false) t
  /\ Forall (fun c => c <> 41%N /\ isLineTerminator c = false) u
  /\ Forall (fun c => c <> 93%N) u.

(** ** Readings of the lines of the converter *)

(** A line with one of the four prefixes of the loop. *)
Definition isMarked (line : str) : bool :=
  startsWith (js "# ") line || startsWith (js "## ") line
  || startsWith (js "### ") line || startsWith (js "- ") line.

(** A line that reaches the last branch of the loop. *)
Definition isTextLine (line : str) : bool :=
  negb (isMarked line) && negb (str_eqb (trim line) (js "")).

Definition isParagraph (b : Block) : bool :=
  match b with
  | Paragraph _ => true
  | _ => false
  end.

(** ** splitContentIntoBlocks *)

(** The two regular expressions of [splitContentIntoBlocks], [/^#+/] and
    [/^#+\s/]: literals, a greedy [c+] and [\s].  A greedy atom takes
    one more code unit when it can and gives it back when the rest of
    the pattern fails after it. *)
Module StartRegExp.

Inductive atom : Type :=
| Plus (c : char)
| Space.

(** [c+] after its first code unit: one more [c] is taken when there
    is one, and given back when [rest] fails behind it. *)
Fixpoint greedy (c : char) (rest : str -> option nat) (t : str)
  : option nat :=
  match t with
  | y :: t' =>
      if char_eqb y c
      then
        match greedy c rest t' with
        | Some n => Some (S n)
        | None => rest t
        end
      else rest t
  | [] => rest t
  end.

Fixpoint matchStart (p : list atom) : str -> option nat :=
  match p with
  | [] => fun _ => Some 0
  | Space :: p' =>
      fun s =>
        match s with
        | x :: s' =>
            if isTrimmed x then option_map S (matchStart p' s') else None
        | [] => None
        end
  | Plus c :: p' =>
      fun s =>
        match s with
        | x :: s' =>
            if char_eqb x c
            then option_map S (greedy c (matchStart p') s')
            else None
        | [] => None
        end
  end.

(** [s.replace(/^p/, "")]: the match at index 0, if any, is removed. *)
Definition removeStart (p : list atom) (s : str) : str :=
  match matchStart p s with
  | Some n => skipn n s
  | None => s
  end.

End StartRegExp.
Import StartRegExp.

(** A block of [splitContentIntoBlocks]: [type] is a computed string
    there, and [rich_text] sits under the key of the same name. *)
Record AnyBlock : Type := mkAnyBlock {
  any_type : str;
  any_rich_text : list RichText
}.

(** The callback of [paragraphs.map]; [None] is the [undefined] of the
    path on which [match] is [null] and no [return] is reached. *)
Definition splitParagraph (paragraph : str) : option AnyBlock :=
  if startsWith (js "#") paragraph then
    match matchStart [Plus 35%N] paragraph with
    | Some level =>
        let headingType :=
          js "heading_" ++ numberToString (Z.of_nat level) in
        Some (mkAnyBlock headingType
                [PlainText (removeStart [Plus 35%N; Space] paragraph)])
    | None => None
    end
  else if startsWith (js "- ") paragraph then
    Some (mkAnyBlock (js "bulleted_list_item")
            [PlainText (substring 2 paragraph)])
  else
    Some (mkAnyBlock (js "paragraph") [PlainText (trim paragraph)]).

Definition splitContentIntoBlocks (content : str) : list (option AnyBlock) :=
  map splitParagraph (split (newline ++ newline) content).

(** The number of [#] at the head of a text. *)
Fixpoint leadingHashes (s : str) : nat :=
  match s with
  | c :: s' => if char_eqb c 35%N then S (leadingHashes s') else 0
  | [] => 0
  end.

(** ** The command that publishes a digest

    [handleGenDigest] and [handleSuccess] of the command file, which
    call [updateMorningBriefDb].  Their collaborators are awaited calls
    that may be rejected: [sendNotification], [updateCommandMetadata]
    and [bizGenDigest]; [dayjs().format(...)] reads the clock. *)

Module Command.

(** What is written to the console. *)
Inductive logged : Type :=
| LogText (text : str)
| LogPage (label : str) (result : PageObject)
| LogError (label : str) (error : thrown).

Inductive Task (A : Type) : Type :=
| Done (a : A)
| Fail (e : thrown)
| SendNotification (title message : str) (k : thrown + unit -> Task A)
| UpdateCommandMetadata (subtitle : str) (k : thrown + unit -> Task A)
| DayjsFormat (k : str -> Task A)
| Console (l : logged) (k : Task A)
| BizGenDigest (k : thrown + Digest -> Task A)
| Service (m : Async PageObject) (k : thrown + PageObject -> Task A).

Arguments Done {A} a.
Arguments Fail {A} e.
Arguments SendNotification {A} title message k.
Arguments UpdateCommandMetadata {A} subtitle k.
Arguments DayjsFormat {A} k.
Arguments Console {A} l k.
Arguments BizGenDigest {A} k.
Arguments Service {A} m k.

Fixpoint andThen {A B : Type} (m : Task A) (f : A -> Task B) : Task B :=
  match m with
  | Done a => f a
  | Fail e => Fail e
  | SendNotification t msg k =>
      SendNotification t msg (fun r => andThen (k r) f)
  | UpdateCommandMetadata st k =>
      UpdateCommandMetadata st (fun r => andThen (k r) f)
  | DayjsFormat k => DayjsFormat (fun d => andThen (k d) f)
  | Console l k => Console l (andThen k f)
  | BizGenDigest k => BizGenDigest (fun r => andThen (k r) f)
  | Service m k => Service m (fun r => andThen (k r) f)
  end.

(** [try { m } catch (err) { h err }] *)
Fixpoint catch {A : Type} (m : Task A) (h : thrown -> Task A) : Task A :=
  match m with
  | Done a => Done a
  | Fail e => h e
  | SendNotification t msg k =>
      SendNotification t msg (fun r => catch (k r) h)
  | UpdateCommandMetadata st k =>
      UpdateCommandMetadata st (fun r => catch (k r) h)
  | DayjsFormat k => DayjsFormat (fun d => catch (k d) h)
  | Console l k => Console l (catch k h)
  | BizGenDigest k => BizGenDigest (fun r => catch (k r) h)
  | Service m k => Service m (fun r => catch (k r) h)
  end.

Definition awaited {A R : Type} (r : thrown + R) (k : R -> Task A) : Task A :=
  match r with
  | inl e => Fail e
  | inr v => k v
  end.

Notation "x <~ m ;; k" := (andThen m (fun x => k))
  (at level 61, m at next level, right associativity).

Definition sendNotification (title message : str) : Task unit :=
  SendNotification title message (fun r => awaited r Done).

Definition updateCommandMetadata (subtitle : str) : Task unit :=
  UpdateCommandMetadata subtitle (fun r => awaited r Done).

Definition dayjs_format : Task str := DayjsFormat Done.

Definition console (l : logged) : Task unit := Console l (Done tt).

Definition bizGenDigest : Task Digest :=
  BizGenDigest (fun r => awaited r Done).

Definition notionService_updateMorningBriefDb (digest : Digest)
  : Task PageObject :=
  Service (updateMorningBriefDb digest) (fun r => awaited r Done).

Definition handleSuccess (digest : Digest) : Task unit :=
  _ <~ sendNotification
         (js "Daily Digest Success")
         (js "View 'Daily Read' command to see today's digest.") ;;
  stamp <~ dayjs_format ;;
  _ <~ updateCommandMetadata (js "Last auto digest at: " ++ stamp) ;;
  catch
    (result <~ notionService_updateMorningBriefDb digest ;;
     _ <~ console (LogPage (js "Notion update successful:") result) ;;
     sendNotification (js "Notion Update Success")
                      (js "Today's digest has been added to Notion."))
    (fun error =>
       _ <~ console (LogError (js "Failed to update Notion:") error) ;;
       sendNotification (js "Notion Update Failed")
                        (js "Failed to add today's digest to Notion.")).

(** The two constants of [utils/error] that [matchError] is asked
    about. *)
Inductive errorCode : Type := NO_API_KEY | NO_FEEDS.

(** [matchError] of [utils/error] is not among the sources; it is a
    parameter here, a test on the caught value. *)
Definition handleGenDigest (matchError : thrown -> errorCode -> bool)
           (onSuccess : Digest -> Task unit) (enableError : bool)
  : Task unit :=
  catch
    (_ <~ console (LogText (js "start to gen digest...")) ;;
     digest <~ bizGenDigest ;;
     onSuccess digest)
    (fun err =>
       if negb enableError then Done tt
       else if matchError err NO_API_KEY then
         sendNotification
           (js "Daily Digest Success")
           (js "View 'Daily Read' command to see today's digest.")
       else if matchError err NO_FEEDS then
         sendNotification
           (js "Daily Digest Failed")
           (js "No RSS link found in today's sources, please add some and try again.")
       else Done tt).

(** *** Running a task

    The host answers the awaited calls; the document store is a part
    of it. *)

Inductive happened : Type :=
| Notified (title message : str) (outcome : thrown + unit)
| MetadataUpdated (subtitle : str) (outcome : thrown + unit)
| Formatted (stamp : str)
| Logged (l : logged)
| Generated (outcome : thrown + Digest)
| Store (ev : event).

Record Host (W : Type) : Type := mkHost {
  store : Remote W;
  send_notification : str -> str -> W -> (thrown + unit) * W;
  update_metadata : str -> W -> (thrown + unit) * W;
  format_now : W -> str * W;
  gen_digest : W -> (thrown + Digest) * W
}.

Arguments mkHost {W} _ _ _ _ _.
Arguments store {W} h.
Arguments send_notification {W} h _ _ _.
Arguments update_metadata {W} h _ _.
Arguments format_now {W} h _.
Arguments gen_digest {W} h _.

Fixpoint exec {W A : Type} (H : Host W) (m : Task A) (w : W)
  : (thrown + A) * W * list happened :=
  match m with
  | Done a => (inr a, w, [])
  | Fail e => (inl e, w, [])
  | SendNotification t msg k =>
      let '(r, w1) := send_notification H t msg w in
      let '(res, w2, tr) := exec H (k r) w1 in
      (res, w2, Notified t msg r :: tr)
  | UpdateCommandMetadata st k =>
      let '(r, w1) := update_metadata H st w in
      let '(res, w2, tr) := exec H (k r) w1 in
      (res, w2, MetadataUpdated st r :: tr)
  | DayjsFormat k =>
      let '(d, w1) := format_now H w in
      let '(res, w2, tr) := exec H (k d) w1 in
      (res, w2, Formatted d :: tr)
  | Console l k =>
      let '(res, w2, tr) := exec H k w in
      (res, w2, Logged l :: tr)
  | BizGenDigest k =>
      let '(r, w1) := gen_digest H w in
      let '(res, w2, tr) := exec H (k r) w1 in
      (res, w2, Generated r :: tr)
  | Service m k =>
      let '(r, w1, evs) := run (store H) m w in
      let '(res, w2, tr) := exec H (k r) w1 in
      (res, w2, map Store evs ++ tr)
  end.

(** Readings of what happened. *)
Definition isStore (h : happened) : bool :=
  match h with
  | Store _ => true
  | _ => false
  end.

Definition isNotified (h : happened) : bool :=
  match h with
  | Notified _ _ _ => true
  | _ => false
  end.

(** The titles of the notifications sent, in order. *)
Fixpoint titlesSent (tr : list happened) : list str :=
  match tr with
  | [] => []
  | Notified t _ _ :: tr' => t :: titlesSent tr'
  | _ :: tr' => titlesSent tr'
  end.

(** The values with which the host rejected a call of the command's
    own: a notification, a metadata update or the generation. *)
Fixpoint rejections (tr : list happened) : list thrown :=
  match tr with
  | [] => []
  | Notified _ _ (inl e) :: tr' => e :: rejections tr'
  | MetadataUpdated _ (inl e) :: tr' => e :: rejections tr'
  | Generated (inl e) :: tr' => e :: rejections tr'
  | _ :: tr' => rejections tr'
  end.

(** The events of the document store among what happened. *)
Fixpoint storeEvents (tr : list happened) : list event :=
  match tr with
  | [] => []
  | Store ev :: tr' => ev :: storeEvents tr'
  | _ :: tr' => storeEvents tr'
  end.

(** The texts of the notifications. *)
Definition digestSuccess : str * str :=
  (js "Daily Digest Success",
   js "View 'Daily Read' command to see today's digest.").

Definition digestFailed : str * str :=
  (js "Daily Digest Failed",
   js "No RSS link found in today's sources, please add some and try again.").

Definition notionSuccess : str * str :=
  (js "Notion Update Success", js "Today's digest has been added to Notion.").

Definition notionFailed : str * str :=
  (js "Notion Update Failed", js "Failed to add today's digest to Notion.").

(** *** Hosts for the examples *)

(** A host that delivers every notification, accepts the metadata and
    generates the digest [---]. *)
Definition quietHost (remote : Remote nat) : Host nat :=
  mkHost remote
         (fun _ _ n => (inr tt, n))
         (fun _ n => (inr tt, n))
         (fun n => (js "2024-03-03 08:00", n))
         (fun n => (inr (mkDigest (js "---")), n)).

(** A host that rejects every notification. *)
Definition deafHost (remote : Remote nat) : Host nat :=
  mkHost remote
         (fun _ _ n => (inl (Rejected (js "no notifier")), n))
         (fun _ n => (inr tt, n))
         (fun n => (js "2024-03-03 08:00", n))
         (fun n => (inr (mkDigest (js "---")), n)).

(** A host that delivers every notification but the one of the
    success of the store. *)
Definition busyHost : Host nat :=
  mkHost (storeWith sampleListing)
         (fun t _ n =>
            if str_eqb t (fst notionSuccess)
            then (inl (Rejected (js "busy")), n)
            else (inr tt, n))
         (fun _ n => (inr tt, n))
         (fun n => (js "2024-03-03 08:00", n))
         (fun n => (inr (mkDigest (js "---")), n)).

(** A host whose generation fails with [cause]. *)
Definition barrenHost (cause : thrown) : Host nat :=
  mkHost (storeWith sampleListing)
         (fun _ _ n => (inr tt, n))
         (fun _ n => (inr tt, n))
         (fun n => (js "2024-03-03 08:00", n))
         (fun n => (inl cause, n)).

End Command.

(** ** Facts about the string primitives *)

Section StringFacts.

Lemma char_eqb_eq (a b : char) : char_eqb a b = true <-> a = b.
Proof. unfold char_eqb. apply N.eqb_eq. Qed.

Lemma char_eqb_refl (a : char) : char_eqb a a = true.
Proof. apply char_eqb_eq. reflexivity. Qed.

Lemma str_eqb_eq (a b : str) : str_eqb a b = true <-> a = b.
Proof.
  revert b. induction a as [|x a IH]; intros [|y b]; simpl;
    try (split; [discriminate | discriminate]); try tauto.
  rewrite andb_true_iff, char_eqb_eq, IH.
  split; [intros [-> ->]; reflexivity | intros H; inversion H; auto].
Qed.

Lemma str_eqb_neq (a b : str) : a <> b -> str_eqb a b = false.
Proof.
  intros H. destruct (str_eqb a b) eqn:E; [|reflexivity].
  apply str_eqb_eq in E. contradiction.
Qed.

Lemma startsWith_app (p r : str) : startsWith p (p ++ r) = true.
Proof.
  induction p as [|x p IH]; simpl; [reflexivity|].
  now rewrite char_eqb_refl, IH.
Qed.

Lemma startsWith_inv (p s : str) :
  startsWith p s = true -> exists r, s = p ++ r.
Proof.
  revert s. induction p as [|x p IH]; intros s H; simpl in *.
  - now exists s.
  - destruct s as [|y s]; [discriminate|].
    apply andb_true_iff in H. destruct H as [Hc Hp].
    apply char_eqb_eq in Hc. subst y.
    destruct (IH _ Hp) as [r ->]. now exists r.
Qed.

Lemma trimStart_no_white (c : char) (s : str) :
  isTrimmed c = false -> trimStart (c :: s) = c :: s.
Proof. intros H. simpl. now rewrite H. Qed.

Lemma trim_cons_nonblank (c : char) (s : str) :
  isTrimmed c = false -> trim (c :: s) <> [].
Proof.
  intros H. unfold trim. rewrite trimStart_no_white by assumption.
  unfold trimEnd. intros E.
  apply (f_equal (@rev char)) in E. rewrite rev_involutive in E.
  simpl in E.
  assert (G : forall t, trimStart (t ++ [c]) <> []).
  { induction t as [|x t IH]; simpl.
    - now rewrite H.
    - destruct (isTrimmed x); [exact IH | discriminate]. }
  exact (G _ E).
Qed.

Lemma startsWith_cons (c : char) (p : str) (x : char) (s : str) :
  startsWith (c :: p) (x :: s) = char_eqb x c && startsWith p s.
Proof. simpl. now rewrite N.eqb_sym. Qed.

Lemma includes_startsWith (p s : str) :
  startsWith p s = true -> includes p s = true.
Proof. intros H. destruct s; simpl; now rewrite H. Qed.

Lemma includes_cons (p : str) (c : char) (s : str) :
  includes p s = true -> includes p (c :: s) = true.
Proof. intros H. simpl. rewrite H. apply orb_true_r. Qed.

Lemma includes_app (p a b : str) : includes p (a ++ p ++ b) = true.
Proof.
  induction a as [|c a IH].
  - simpl app. destruct (p ++ b) eqn:E; simpl;
      rewrite <- E, startsWith_app; reflexivity.
  - apply includes_cons, IH.
Qed.

Lemma includes_false_inv (p : str) (c : char) (s : str) :
  includes p (c :: s) = false ->
  startsWith p (c :: s) = false /\ includes p s = false.
Proof. simpl. intros H. apply orb_false_iff in H. exact H. Qed.

(** The separator of [parsePart] cannot straddle the end of a text that
    is free of it. *)
Lemma sep_not_straddling (c : char) (t rest : str) :
  startsWith (js "](") (c :: t) = false ->
  startsWith (js "](") (c :: t ++ js "](" ++ rest) = false.
Proof.
  destruct t as [|y t]; simpl.
  - intros _. apply andb_false_r.
  - tauto.
Qed.

Lemma splitLoop_free (u : str) :
  includes (js "](") u = false ->
  forall piece, splitLoop (js "](") 0 piece u = [rev piece ++ u].
Proof.
  induction u as [|c u IH]; intros H piece.
  - simpl. now rewrite app_nil_r.
  - apply includes_false_inv in H. destruct H as [H1 H2].
    cbn [splitLoop]. rewrite H1, (IH H2). simpl.
    now rewrite <- app_assoc.
Qed.

Lemma splitLoop_first (t u : str) :
  includes (js "](") t = false ->
  forall piece,
    splitLoop (js "](") 0 piece (t ++ js "](" ++ u)
    = (rev piece ++ t) :: splitLoop (js "](") 0 [] u.
Proof.
  induction t as [|c t IH]; intros H piece.
  - rewrite app_nil_r. reflexivity.
  - apply includes_false_inv in H. destruct H as [H1 H2].
    change ((c :: t) ++ js "](" ++ u) with (c :: t ++ js "](" ++ u).
    cbn [splitLoop]. rewrite (sep_not_straddling _ _ _ H1), (IH H2).
    simpl. now rewrite <- app_assoc.
Qed.

Lemma split_simple (t u : str) :
  includes (js "](") t = false ->
  includes (js "](") u = false ->
  split (js "](") (t ++ js "](" ++ u) = [t; u].
Proof.
  intros Ht Hu. change (split (js "](") ?s) with (splitLoop (js "](") 0 [] s).
  rewrite (splitLoop_first _ _ Ht), (splitLoop_free _ Hu). reflexivity.
Qed.

Lemma slice_1_m1_wrapped (c d : char) (s : str) :
  slice_1_m1 (c :: s ++ [d]) = s.
Proof.
  unfold slice_1_m1. simpl. rewrite length_app. simpl.
  replace (length s + 1 - 0 - 1) with (length s) by lia.
  now rewrite firstn_app, firstn_all, Nat.sub_diag, app_nil_r.
Qed.

End StringFacts.

(** ** Facts about the matcher *)

Section MatcherFacts.

Lemma matchHere_lit (c : char) (p : pattern) (s : str) :
  matchHere (Lit c :: p) s
  = match s with
    | x :: s' =>
        if char_eqb x c then option_map S (matchHere p s') else None
    | [] => None
    end.
Proof. reflexivity. Qed.

Lemma matchHere_lazy (p : pattern) (s : str) :
  matchHere (LazyAny :: p) s
  = match matchHere p s with
    | Some n => Some n
    | None =>
        match s with
        | x :: s' =>
            if isLineTerminator x then None
            else option_map S (matchHere (LazyAny :: p) s')
        | [] => None
        end
    end.
Proof. destruct s; reflexivity. Qed.

(** A match on a string is still a match, perhaps a shorter one, when
    the string goes on. *)
Lemma matchHere_extends (p : pattern) :
  forall a b n, matchHere p a = Some n ->
                exists m, matchHere p (a ++ b) = Some m.
Proof.
  induction p as [|[c|] p IH].
  - intros a b n _. now exists 0.
  - intros [|x a] b n; [discriminate|].
    change ((x :: a) ++ b) with (x :: (a ++ b)). rewrite !matchHere_lit.
    destruct (char_eqb x c); [|discriminate].
    destruct (matchHere p a) as [k|] eqn:E; [|discriminate].
    intros _. destruct (IH a b k E) as [m ->]. now exists (S m).
  - induction a as [|x a IHa]; intros b n.
    + rewrite matchHere_lazy.
      destruct (matchHere p []) as [k|] eqn:E; [|discriminate].
      intros _. destruct (IH [] b k E) as [m Hm].
      exists m. rewrite matchHere_lazy. now rewrite Hm.
    + rewrite matchHere_lazy.
      destruct (matchHere p (x :: a)) as [k|] eqn:E.
      * intros _. destruct (IH (x :: a) b k E) as [m Hm].
        exists m. rewrite matchHere_lazy. now rewrite Hm.
      * destruct (isLineTerminator x) eqn:L; [discriminate|].
        destruct (matchHere (LazyAny :: p) a) as [k|] eqn:E'; [|discriminate].
        intros _. destruct (IHa b k eq_refl) as [m Hm].
        change ((x :: a) ++ b) with (x :: (a ++ b)).
        rewrite (matchHere_lazy p (x :: (a ++ b))).
        destruct (matchHere p (x :: (a ++ b))) as [j|]; [now exists j|].
        rewrite L, Hm. now exists (S m).
Qed.

(** The matched prefix is itself matched, whole. *)
Lemma matchHere_firstn (p : pattern) :
  forall s n, matchHere p s = Some n ->
              n <= length s /\ matchHere p (firstn n s) = Some n.
Proof.
  induction p as [|[c|] p IH].
  - intros s n H. injection H as <-. split; [apply Nat.le_0_l | reflexivity].
  - intros [|x s] n; rewrite matchHere_lit; [discriminate|].
    destruct (char_eqb x c) eqn:C; [|discriminate].
    destruct (matchHere p s) as [k|] eqn:E; [|discriminate].
    intros H. injection H as <-. destruct (IH s k E) as [Hle Hm].
    split; [simpl; lia|].
    cbn [firstn]. rewrite matchHere_lit, C, Hm. reflexivity.
  - induction s as [|x s IHs]; intros n; rewrite matchHere_lazy.
    + destruct (matchHere p []) as [k|] eqn:E; [|discriminate].
      intros H. injection H as <-. destruct (IH [] k E) as [Hle Hm].
      split; [exact Hle|]. rewrite matchHere_lazy. now rewrite Hm.
    + destruct (matchHere p (x :: s)) as [k|] eqn:E.
      * intros H. injection H as <-. destruct (IH _ k E) as [Hle Hm].
        split; [exact Hle|]. rewrite matchHere_lazy. now rewrite Hm.
      * destruct (isLineTerminator x) eqn:L; [discriminate|].
        destruct (matchHere (LazyAny :: p) s) as [k|] eqn:E'; [|discriminate].
        intros H. injection H as <-. destruct (IHs k eq_refl) as [Hle Hm].
        split; [simpl; lia|].
        cbn [firstn]. rewrite matchHere_lazy.
        destruct (matchHere p (x :: firstn k s)) as [j|] eqn:E''.
        -- exfalso.
           destruct (matchHere_extends p (x :: firstn k s) (skipn k s) j E'')
             as [m Hm'].
           simpl app in Hm'. rewrite firstn_skipn in Hm'. congruence.
        -- rewrite L, Hm. reflexivity.
Qed.

Lemma link_match_shape (s : str) (n : nat) :
  matchHere linkPattern s = Some n ->
  startsWith (js "[") s = true /\ includes (js "](") s = true.
Proof.
  change linkPattern
    with (Lit 91%N :: LazyAny :: Lit 93%N :: Lit 40%N :: [LazyAny; Lit 41%N]).
  rewrite matchHere_lit. destruct s as [|x s]; [discriminate|].
  destruct (char_eqb x 91%N) eqn:C; [|discriminate].
  intros H. split.
  - change (js "[") with [91%N]. now rewrite startsWith_cons, C.
  - apply includes_cons.
    destruct (matchHere _ s) as [k|] eqn:E; [clear H|discriminate].
    revert k E. induction s as [|y s IHs]; intros k; rewrite matchHere_lazy.
    + discriminate.
    + destruct (matchHere (Lit 93%N :: _) (y :: s)) as [j|] eqn:E.
      * intros _. rewrite !matchHere_lit in E.
        destruct (char_eqb y 93%N) eqn:C1; [|discriminate].
        destruct s as [|z s]; [discriminate|].
        destruct (char_eqb z 40%N) eqn:C2; [|discriminate].
        apply includes_startsWith. change (js "](") with [93%N; 40%N].
        now rewrite !startsWith_cons, C1, C2.
      * destruct (isLineTerminator y); [discriminate|].
        destruct (matchHere _ s) as [j|] eqn:E'; [|discriminate].
        intros _. apply includes_cons. exact (IHs j eq_refl).
Qed.

Lemma wrapsLink_looks_like_link (part : str) :
  wrapsLink part = true ->
  startsWith (js "[") part && includes (js "](") part = true.
Proof.
  unfold wrapsLink.
  destruct (matchHere linkPattern part) as [n|] eqn:E; [|discriminate].
  intros _. destruct (link_match_shape _ _ E) as [-> ->]. reflexivity.
Qed.

Lemma splitCaptureLoop_concat (p : pattern) (s : str) :
  forall skip piece,
    concat (splitCaptureLoop p skip piece s) = rev piece ++ skipn skip s.
Proof.
  induction s as [|c s IH]; intros skip piece.
  - simpl. now rewrite skipn_nil.
  - cbn [splitCaptureLoop]. destruct skip as [|k]; [|apply IH].
    assert (G : concat (splitCaptureLoop p 0 (c :: piece) s)
                = rev piece ++ skipn 0 (c :: s)).
    { rewrite IH. simpl. now rewrite <- app_assoc. }
    destruct (matchHere p (c :: s)) as [[|n]|]; try exact G.
    cbn [concat]. rewrite IH. simpl.
    now rewrite firstn_skipn.
Qed.

Lemma splitCaptureLoop_odds (s : str) :
  forall skip piece,
    Forall (fun part => wrapsLink part = true)
           (odds (splitCaptureLoop linkPattern skip piece s)).
Proof.
  induction s as [|c s IH]; intros skip piece.
  - constructor.
  - cbn [splitCaptureLoop]. destruct skip as [|k]; [|apply IH].
    destruct (matchHere linkPattern (c :: s)) as [[|n]|] eqn:E;
      try apply IH.
    cbn [odds]. constructor; [|apply IH].
    destruct (matchHere_firstn _ _ _ E) as [Hle Hm].
    unfold wrapsLink. rewrite Hm.
    rewrite length_firstn. apply Nat.eqb_eq. lia.
Qed.

End MatcherFacts.

(** ** Facts about the loop *)

Section LoopFacts.

Lemma dropNulls_app (a b : list (option Block)) :
  dropNulls (a ++ b) = dropNulls a ++ dropNulls b.
Proof.
  induction a as [|[x|] a IH]; simpl; [reflexivity| |assumption].
  now rewrite IH.
Qed.

Lemma createParagraphBlock_flushed (acc : str) :
  acc <> [] -> dropNulls [createParagraphBlock acc] = flushed acc.
Proof.
  intros H. destruct acc as [|c acc]; [contradiction|].
  unfold createParagraphBlock, flushed.
  destruct (includes (js "AI Summarized") (c :: acc)); reflexivity.
Qed.

Lemma flushParagraph_blocks (st : loopState) :
  dropNulls (blocks (flushParagraph st))
  = dropNulls (blocks st) ++ flushed (currentParagraph st).
Proof.
  unfold flushParagraph.
  destruct (currentParagraph st) as [|c acc] eqn:E.
  - simpl. now rewrite app_nil_r.
  - cbn [blocks]. rewrite dropNulls_app.
    now rewrite createParagraphBlock_flushed.
Qed.

Lemma finish_flushed (st : loopState) :
  finish st = dropNulls (blocks st) ++ flushed (currentParagraph st).
Proof.
  unfold finish.
  destruct (currentParagraph st) as [|c acc] eqn:E.
  - simpl. now rewrite app_nil_r.
  - rewrite dropNulls_app. now rewrite createParagraphBlock_flushed.
Qed.

Lemma skipping_stays (lines : list str) (st : loopState) :
  skipIntroduction st = true ->
  (forall line, In line lines -> trim line <> js "---") ->
  fold_left step lines st = st.
Proof.
  revert st. induction lines as [|l lines IH]; intros st Hs Hn; simpl.
  - reflexivity.
  - assert (E : step st l = st).
    { unfold step. rewrite Hs.
      rewrite str_eqb_neq; [reflexivity|]. apply Hn. now left. }
    rewrite E. apply IH; [assumption|].
    intros line Hin. apply Hn. now right.
Qed.

Lemma separator_opens (st : loopState) (sep : str) :
  skipIntroduction st = true ->
  trim sep = js "---" ->
  step st sep = collecting (blocks st) (currentParagraph st).
Proof.
  intros Hs Ht. unfold step. rewrite Hs.
  assert (E : str_eqb (trim sep) (js "---") = true)
    by now apply str_eqb_eq.
  now rewrite E.
Qed.

Lemma flushed_test (acc : str) :
  flushed acc
  = if negb (str_eqb acc (js "")) && negb (includes (js "AI Summarized") acc)
    then [Paragraph (parseRichText acc)]
    else [].
Proof.
  destruct acc as [|c acc]; [reflexivity|].
  unfold flushed. change (str_eqb (c :: acc) (js "")) with false.
  cbn [negb andb].
  destruct (includes (js "AI Summarized") (c :: acc)); reflexivity.
Qed.

Lemma splitCaptureLoop_nonempty (p : pattern) (s : str) :
  forall skip piece, splitCaptureLoop p skip piece s <> [].
Proof.
  induction s as [|c s IH]; intros skip piece; simpl; [discriminate|].
  destruct skip; [|apply IH].
  destruct (matchHere p (c :: s)) as [[|n]|]; try apply IH. discriminate.
Qed.

Lemma parseRichText_nonempty (text : str) : parseRichText text <> [].
Proof.
  unfold parseRichText, splitCapture. intros E.
  apply map_eq_nil in E. exact (splitCaptureLoop_nonempty _ _ _ _ E).
Qed.

Lemma createParagraphBlock_fromFlush (acc : str) (rich_text : list RichText) :
  createParagraphBlock acc = Some (Paragraph rich_text) ->
  fromFlush rich_text.
Proof.
  unfold createParagraphBlock.
  destruct (includes (js "AI Summarized") acc) eqn:E; [discriminate|].
  destruct acc as [|c acc]; [discriminate|].
  intros H. injection H as <-. split.
  - apply parseRichText_nonempty.
  - exists (c :: acc). repeat split; [discriminate | assumption].
Qed.

Lemma paragraphsFromFlush_snoc (bs : list (option Block)) (b : option Block) :
  paragraphsFromFlush bs ->
  (forall rich_text, b = Some (Paragraph rich_text) -> fromFlush rich_text) ->
  paragraphsFromFlush (bs ++ [b]).
Proof.
  intros Hbs Hb rich_text Hin. apply in_app_or in Hin.
  destruct Hin as [Hin|[Hin|[]]]; [now apply Hbs | now apply Hb].
Qed.

Lemma paragraphsFromFlush_flush (st : loopState) :
  paragraphsFromFlush (blocks st) ->
  paragraphsFromFlush (blocks (flushParagraph st)).
Proof.
  intros H. unfold flushParagraph.
  destruct (currentParagraph st) as [|c acc] eqn:E; [exact H|].
  cbn [blocks]. apply paragraphsFromFlush_snoc; [exact H|].
  intros rich_text. apply createParagraphBlock_fromFlush.
Qed.

Lemma paragraphsFromFlush_step (st : loopState) (line : str) :
  paragraphsFromFlush (blocks st) ->
  paragraphsFromFlush (blocks (step st line)).
Proof.
  intros H. unfold step, push, createHeadingBlock,
    createBulletedListItemBlock.
  repeat match goal with
         | |- context [if ?b then _ else _] => destruct b
         end; cbn [blocks]; auto using paragraphsFromFlush_flush;
    (apply paragraphsFromFlush_snoc;
     [now apply paragraphsFromFlush_flush | discriminate]).
Qed.

Lemma paragraphsFromFlush_fold (lines : list str) (st : loopState) :
  paragraphsFromFlush (blocks st) ->
  paragraphsFromFlush (blocks (fold_left step lines st)).
Proof.
  revert st. induction lines as [|l lines IH]; intros st H; simpl.
  - exact H.
  - apply IH. now apply paragraphsFromFlush_step.
Qed.

Lemma in_dropNulls (bs : list (option Block)) (b : Block) :
  In b (dropNulls bs) -> In (Some b) bs.
Proof.
  induction bs as [|[x|] bs IH]; simpl; [tauto| |tauto].
  intros [->|H]; [now left | right; now apply IH].
Qed.

Lemma paragraphsFromFlush_finish (st : loopState) :
  paragraphsFromFlush (blocks st) ->
  forall rich_text, In (Paragraph rich_text) (finish st) ->
                    fromFlush rich_text.
Proof.
  intros H rich_text Hin. unfold finish in Hin.
  apply in_dropNulls in Hin.
  destruct (currentParagraph st) as [|c acc] eqn:E; [now apply H|].
  revert rich_text Hin. apply paragraphsFromFlush_snoc; [exact H|].
  intros rich_text. apply createParagraphBlock_fromFlush.
Qed.

Lemma convert_invariant (content : str) :
  paragraphsFromFlush
    (blocks (fold_left step (split newline content) initialState)).
Proof.
  apply paragraphsFromFlush_fold. intros rich_text [].
Qed.

End LoopFacts.

(** ** The converter: preamble, headings, paragraphs *)

Section Converter.

(** C3: an input without a line that trims to [---] gives no block;
    when there is one, the output is the conversion of the lines after
    the first such line, so that line and the lines before it give
    nothing. *)
Theorem preamble_is_discarded (content : str) :
  ((forall line, In line (split newline content) -> trim line <> js "---") ->
   convertContentToBlocks content = [])
  /\
  (forall pre sep post,
      split newline content = pre ++ sep :: post ->
      (forall line, In line pre -> trim line <> js "---") ->
      trim sep = js "---" ->
      convertContentToBlocks content = collectLines post).
Proof.
  unfold convertContentToBlocks, convertLines. split.
  - intros Hn. rewrite skipping_stays; auto.
  - intros pre sep post -> Hpre Hsep.
    rewrite fold_left_app. cbn [fold_left].
    rewrite (skipping_stays pre initialState) by auto.
    rewrite separator_opens by auto. reflexivity.
Qed.

Lemma preamble_is_discarded_witness :
  convertContentToBlocks (js "no separator here") = []
  /\ convertContentToBlocks
       (js "intro" ++ newline ++ js " --- " ++ newline ++ js "- a")
     = collectLines [js "- a"].
Proof.
  split.
  - apply (proj1 (preamble_is_discarded (js "no separator here"))).
    intros line Hin. vm_compute in Hin.
    destruct Hin as [<-|[]]. vm_compute. discriminate.
  - apply (proj2 (preamble_is_discarded _) [js "intro"] (js " --- ")).
    + reflexivity.
    + intros line Hin. destruct Hin as [<-|[]]. vm_compute. discriminate.
    + reflexivity.
Defined.

(** C10: in the collecting state a line that begins with [#] without
    one of the prefixes [# ], [## ], [### ] is appended to the pending
    paragraph, no block is emitted for it, and at the next flush it is
    part of the paragraph text like any other line. *)
Theorem hash_line_is_paragraph_text (st : loopState) (line : str) :
  skipIntroduction st = false ->
  startsWith (js "#") line = true ->
  startsWith (js "# ") line = false ->
  startsWith (js "## ") line = false ->
  startsWith (js "### ") line = false ->
  step st line = collecting (blocks st) (currentParagraph st ++ line)
  /\ currentParagraph st ++ line <> []
  /\ finish (step st line)
     = dropNulls (blocks st) ++ flushed (currentParagraph st ++ line).
Proof.
  intros Hs H0 H1 H2 H3.
  assert (E : step st line
              = collecting (blocks st) (currentParagraph st ++ line)).
  { unfold step. rewrite Hs, H1, H2, H3.
    apply startsWith_inv in H0. destruct H0 as [r ->].
    change (js "#" ++ r) with (35%N :: r).
    change (startsWith (js "- ") (35%N :: r)) with false. cbv iota.
    rewrite str_eqb_neq; [reflexivity|].
    apply trim_cons_nonblank. reflexivity. }
  split; [exact E|]. split.
  - apply startsWith_inv in H0. destruct H0 as [r ->].
    destruct (currentParagraph st); discriminate.
  - rewrite E. apply finish_flushed.
Qed.

Lemma hash_line_is_paragraph_text_witness :
  step (collecting [] (js "so far ")) (js "#Title")
  = collecting [] (js "so far #Title")
  /\ step (collecting [] []) (js "#### deep")
     = collecting [] (js "#### deep").
Proof.
  split.
  - apply (hash_line_is_paragraph_text
             (collecting [] (js "so far ")) (js "#Title")); reflexivity.
  - apply (hash_line_is_paragraph_text
             (collecting [] []) (js "#### deep")); reflexivity.
Defined.

Lemma heading2_not_heading1 (line : str) :
  startsWith (js "## ") line = true -> startsWith (js "# ") line = false.
Proof.
  intros H. apply startsWith_inv in H. destruct H as [r ->]. reflexivity.
Qed.

Lemma heading3_not_heading12 (line : str) :
  startsWith (js "### ") line = true ->
  startsWith (js "# ") line = false /\ startsWith (js "## ") line = false.
Proof.
  intros H. apply startsWith_inv in H. destruct H as [r ->].
  split; reflexivity.
Qed.

Lemma bullet_not_heading (line : str) :
  startsWith (js "- ") line = true ->
  startsWith (js "# ") line = false
  /\ startsWith (js "## ") line = false
  /\ startsWith (js "### ") line = false.
Proof.
  intros H. apply startsWith_inv in H. destruct H as [r ->].
  repeat split; reflexivity.
Qed.

(** C1, as the code has it: in the collecting state a line with the
    prefix [# ], [## ] or [### ] flushes the pending paragraph and then
    emits a heading of level 1, 2 or 3 whose text is one plain span:
    the rest of the line with every placeholder match removed, then
    trimmed.  The text of a heading is not given to [parseRichText].
    A bullet line emits the parse of the rest of the line and a flush
    emits the parse of the accumulated text, both without the removal
    of placeholders. *)
Theorem heading_line_emits_plain_heading (st : loopState) (line : str) :
  skipIntroduction st = false ->
  (startsWith (js "# ") line = true ->
   step st line
   = push (Some (Heading heading_1
             [PlainText (trim (removeAll placeholderPattern
                                         (substring 2 line)))]))
          (flushParagraph st))
  /\
  (startsWith (js "## ") line = true ->
   step st line
   = push (Some (Heading heading_2
             [PlainText (trim (removeAll placeholderPattern
                                         (substring 3 line)))]))
          (flushParagraph st))
  /\
  (startsWith (js "### ") line = true ->
   step st line
   = push (Some (Heading heading_3
             [PlainText (trim (removeAll placeholderPattern
                                         (substring 4 line)))]))
          (flushParagraph st))
  /\
  (startsWith (js "- ") line = true ->
   step st line
   = push (Some (BulletedListItem (parseRichText (substring 2 line))))
          (flushParagraph st))
  /\
  dropNulls (blocks (flushParagraph st))
  = dropNulls (blocks st) ++ flushed (currentParagraph st)
  /\
  collectLines [js "# T @([a](b)) "; js "- @([a](b))"; js "@([a](b))"]
  = [Heading heading_1 [PlainText (js "T")];
     BulletedListItem
       [PlainText (js "@("); Link (js "a") (Some (js "b"));
        PlainText (js ")")];
     Paragraph
       [PlainText (js "@("); Link (js "a") (Some (js "b"));
        PlainText (js ")")]].
Proof.
  intros Hs. unfold step. rewrite Hs.
  repeat split.
  - intros H. now rewrite H.
  - intros H. now rewrite (heading2_not_heading1 _ H), H.
  - intros H. destruct (heading3_not_heading12 _ H) as [H1 H2].
    now rewrite H1, H2, H.
  - intros H. destruct (bullet_not_heading _ H) as (H1 & H2 & H3).
    now rewrite H1, H2, H3, H.
  - apply flushParagraph_blocks.
Qed.

Lemma heading_line_emits_plain_heading_witness :
  step (collecting [] (js "pending")) (js "## Top [a](b) @([x](y))")
  = collecting
      [Some (Paragraph [PlainText (js "pending")]);
       Some (Heading heading_2 [PlainText (js "Top [a](b)")])]
      [].
Proof.
  exact (proj1 (proj2 (heading_line_emits_plain_heading
           (collecting [] (js "pending")) (js "## Top [a](b) @([x](y))")
           eq_refl)) eq_refl).
Defined.

(** C1 as it is stated fails: the text of the heading of [# [a](b)] is
    the single plain span [[a](b)], not the parse of that text. *)
Lemma heading_text_is_not_parsed :
  skipIntroduction (collecting [] []) = false
  /\ startsWith (js "# ") (js "# [a](b)") = true
  /\ step (collecting [] []) (js "# [a](b)")
     <> push (Some (Heading heading_1
                (parseRichText
                   (trim (removeAll placeholderPattern
                                    (substring 2 (js "# [a](b)")))))))
             (flushParagraph (collecting [] [])).
Proof.
  split; [reflexivity|]. split; [reflexivity|].
  vm_compute. discriminate.
Qed.

(** C2: a flush emits a paragraph exactly when the accumulated text is
    not empty and does not contain [AI Summarized], and then it is the
    parse of the whole text; so every paragraph of the output is the
    parse of such a text, and none is empty. *)
Theorem flush_emits_paragraph (st : loopState) :
  (dropNulls (blocks (flushParagraph st))
   = dropNulls (blocks st)
     ++ (if negb (str_eqb (currentParagraph st) (js ""))
            && negb (includes (js "AI Summarized") (currentParagraph st))
         then [Paragraph (parseRichText (currentParagraph st))]
         else []))
  /\
  (finish st
   = dropNulls (blocks st)
     ++ (if negb (str_eqb (currentParagraph st) (js ""))
            && negb (includes (js "AI Summarized") (currentParagraph st))
         then [Paragraph (parseRichText (currentParagraph st))]
         else []))
  /\
  (forall content rich_text,
      In (Paragraph rich_text) (convertContentToBlocks content) ->
      fromFlush rich_text)
  /\
  convertContentToBlocks
    (js "---" ++ newline ++ js "- a" ++ newline ++ js "- b" ++ newline)
  = [BulletedListItem [PlainText (js "a")];
     BulletedListItem [PlainText (js "b")]].
Proof.
  rewrite flushParagraph_blocks, finish_flushed, flushed_test.
  split; [reflexivity|]. split; [reflexivity|]. split; [|reflexivity].
  intros content rich_text Hin.
  exact (paragraphsFromFlush_finish _ (convert_invariant content)
           rich_text Hin).
Qed.

Lemma flush_emits_paragraph_witness :
  fromFlush [PlainText (js "Body text")].
Proof.
  apply (proj1 (proj2 (proj2 (flush_emits_paragraph initialState)))
           (js "preamble" ++ newline ++ js "---" ++ newline
            ++ js "# Title" ++ newline ++ js "Body text")).
  vm_compute. right. left. reflexivity.
Defined.

End Converter.

(** ** The ordinal suffix *)

Section Ordinal.

(** The expression of the source and the rule of the spec on the two
    last digits [v] of the day. *)
Let fromSource (v : Z) : str :=
  stringOf
    (jsOr (jsOr (arrayGet suffixes (Z.rem (v - 20) 10)) (arrayGet suffixes v))
          (arrayGet suffixes 0)).

Let fromRule (v : Z) : str :=
  if (v =? 11)%Z || (v =? 12)%Z || (v =? 13)%Z then js "th"
  else
    let u := (v mod 10)%Z in
    if (u =? 1)%Z then js "st"
    else if (u =? 2)%Z then js "nd"
    else if (u =? 3)%Z then js "rd"
    else js "th".

Lemma two_digits_agree (v : Z) :
  (0 <= v < 100)%Z -> fromSource v = fromRule v.
Proof.
  intros Hv.
  assert (T : forallb
                (fun n => str_eqb (fromSource (Z.of_nat n))
                                  (fromRule (Z.of_nat n)))
                (seq 0 100) = true) by (vm_compute; reflexivity).
  rewrite forallb_forall in T.
  specialize (T (Z.to_nat v)).
  rewrite Z2Nat.id in T by lia.
  apply str_eqb_eq, T, in_seq. lia.
Qed.

(** C6: from day 1 on, the title's ordinal is the numeral of the day
    followed by the suffix of the rule: [th] for 11, 12, 13 modulo 100,
    else [st], [nd], [rd] for a last digit 1, 2, 3, else [th]. *)
Theorem getOrdinalSuffix_rule (d : Z) :
  (1 <= d)%Z ->
  getOrdinalSuffix d = numberToString d ++ ordinalRule d
  /\ map getOrdinalSuffix [1; 2; 3; 4; 11; 21]%Z
     = [js "1st"; js "2nd"; js "3rd"; js "4th"; js "11th"; js "21st"].
Proof.
  intros Hd. split; [|reflexivity].
  unfold getOrdinalSuffix. f_equal.
  change (ordinalSuffixOf d) with
    (jsOr (jsOr (arrayGet suffixes (Z.rem (Z.rem d 100 - 20) 10))
                (arrayGet suffixes (Z.rem d 100)))
          (arrayGet suffixes 0)).
  rewrite (Z.rem_mod_nonneg d 100) by lia.
  change (stringOf _) with (fromSource (d mod 100)).
  rewrite two_digits_agree by (apply Z.mod_pos_bound; lia).
  unfold fromRule, ordinalRule.
  replace ((d mod 100) mod 10)%Z with (d mod 10)%Z; [reflexivity|].
  symmetry. apply Z.mod_mod_divide. exists 10%Z. reflexivity.
Qed.

Lemma getOrdinalSuffix_rule_witness :
  getOrdinalSuffix 22 = numberToString 22 ++ ordinalRule 22.
Proof.
  apply (getOrdinalSuffix_rule 22). lia.
Defined.

End Ordinal.

(** ** parseRichText *)

Section RichTextParser.

Lemma parsePart_plain (part : str) :
  startsWith (js "[") part && includes (js "](") part = false ->
  parsePart part = PlainText part.
Proof. intros H. unfold parsePart. now rewrite H. Qed.

Lemma parsePart_link (part : str) :
  startsWith (js "[") part && includes (js "](") part = true ->
  parsePart part
  = Link (nth 0 (split (js "](") (slice_1_m1 part)) [])
         (nth_error (split (js "](") (slice_1_m1 part)) 1).
Proof. intros H. unfold parsePart. now rewrite H. Qed.

Lemma parsePart_simple (t u : str) :
  includes (js "](") t = false ->
  includes (js "](") u = false ->
  parsePart (js "[" ++ t ++ js "](" ++ u ++ js ")") = Link t (Some u).
Proof.
  intros Ht Hu. rewrite parsePart_link.
  - replace (js "[" ++ t ++ js "](" ++ u ++ js ")")
      with (91%N :: (t ++ js "](" ++ u) ++ [41%N])
      by (simpl; now rewrite <- !app_assoc).
    rewrite slice_1_m1_wrapped, split_simple by assumption. reflexivity.
  - rewrite startsWith_app.
    change (js "[" ++ t ++ js "](" ++ u ++ js ")")
      with (91%N :: (t ++ js "](" ++ u ++ js ")")).
    now rewrite includes_cons by apply includes_app.
Qed.

Lemma faithful_render (part : str) :
  Faithful part -> renderSpan (parsePart part) = part.
Proof.
  intros [H|(t & u & -> & Ht & Hu)].
  - now rewrite parsePart_plain.
  - now rewrite parsePart_simple.
Qed.

Lemma faithful_render_all (tokens : list str) :
  Forall Faithful tokens ->
  concat (map renderSpan (map parsePart tokens)) = concat tokens.
Proof.
  induction 1 as [|part tokens H _ IH]; simpl; [reflexivity|].
  now rewrite faithful_render, IH.
Qed.

(** What the code does with the tokens: the line is split at the
    matches of the link pattern, the matches staying as tokens of their
    own, and each token gives exactly one span.  A token that is a
    whole match of the pattern becomes a link: its first and last code
    units are sliced off and the rest is split at [](]; the first piece
    is the text, the second the url.  A token that does not begin with
    [[] or does not contain [](] becomes a plain span with the token as
    it is, the empty token too. *)
Theorem parseRichText_spans (line : str) :
  parseRichText line = map parsePart (splitCapture linkPattern line)
  /\ length (parseRichText line) = length (splitCapture linkPattern line)
  /\ Forall (fun part => wrapsLink part = true)
            (odds (splitCapture linkPattern line))
  /\ (forall part,
         wrapsLink part = true ->
         parsePart part
         = Link (nth 0 (split (js "](") (slice_1_m1 part)) [])
                (nth_error (split (js "](") (slice_1_m1 part)) 1))
  /\ (forall part,
         startsWith (js "[") part = false \/ includes (js "](") part = false ->
         parsePart part = PlainText part)
  /\ parsePart (js "") = PlainText (js "").
Proof.
  split; [reflexivity|]. split; [apply length_map|].
  split; [apply splitCaptureLoop_odds|]. split; [|split; [|reflexivity]].
  - intros part H. apply parsePart_link, wrapsLink_looks_like_link, H.
  - intros part [H|H]; apply parsePart_plain; rewrite H;
      [reflexivity | apply andb_false_r].
Qed.

Lemma parseRichText_spans_witness :
  parsePart (js "[docs](http://x)")
  = Link (js "docs") (Some (js "http://x"))
  /\ parsePart (js "[no link here") = PlainText (js "[no link here").
Proof.
  split.
  - apply (proj1 (proj2 (proj2 (proj2 (parseRichText_spans (js "")))))
             (js "[docs](http://x)")).
    reflexivity.
  - apply (proj1 (proj2 (proj2 (proj2 (proj2
             (parseRichText_spans (js ""))))))
             (js "[no link here")).
    right. reflexivity.
Defined.

(** C4: the line [[a](b] has no match of the link pattern, so its
    single token is the line itself and wraps no link; a token that is
    no link is to stay a plain span with its content unchanged.  The
    guard of the code only asks for a leading [[] and a [](] somewhere,
    takes the token for a link, and [slice(1, -1)] cuts off its last
    code unit, the [b]: the span is a link with text [a] and an empty
    url. *)
Lemma malformed_link_becomes_link :
  splitCapture linkPattern (js "[a](b") = [js "[a](b"]
  /\ wrapsLink (js "[a](b") = false
  /\ parseRichText (js "[a](b") = [Link (js "a") (Some (js ""))]
  /\ parseRichText (js "[a](b") <> [PlainText (js "[a](b")].
Proof.
  repeat split. vm_compute. discriminate.
Qed.

(** The example line gives its three spans; the tokens of any line,
    put together, are the line; and putting the brackets back around
    the links gives the line again when every token that begins with
    [[] and contains [](] is a link [[t](u)] whose [t] and [u] do not
    contain [](]. *)
Theorem parse_roundtrip (line : str) :
  parseRichText (js "see [docs](http://x)  more")
  = [PlainText (js "see ");
     Link (js "docs") (Some (js "http://x"));
     PlainText (js "  more")]
  /\ concat (splitCapture linkPattern line) = line
  /\ (Forall Faithful (splitCapture linkPattern line) ->
      render (parseRichText line) = line).
Proof.
  split; [reflexivity|].
  assert (C : concat (splitCapture linkPattern line) = line)
    by apply splitCaptureLoop_concat.
  split; [exact C|].
  intros H. unfold render, parseRichText.
  now rewrite faithful_render_all.
Qed.

Lemma parse_roundtrip_witness :
  render (parseRichText (js "see [docs](http://x)  more"))
  = js "see [docs](http://x)  more".
Proof.
  apply (proj2 (proj2 (parse_roundtrip (js "see [docs](http://x)  more")))).
  change (splitCapture linkPattern (js "see [docs](http://x)  more"))
    with [js "see "; js "[docs](http://x)"; js "  more"].
  apply Forall_cons; [left; reflexivity|].
  apply Forall_cons;
    [right; exists (js "docs"), (js "http://x"); repeat split|].
  apply Forall_cons; [left; reflexivity|]. apply Forall_nil.
Defined.

(** C5: putting the brackets back around the links of the spans is to
    give the line again; for the line [[a](b] it gives [[a]()]: the
    token passed the guard without being a link and its last code
    unit was sliced off. *)
Lemma roundtrip_loses_unclosed_link :
  render (parseRichText (js "[a](b")) = js "[a]()"
  /\ render (parseRichText (js "[a](b")) <> js "[a](b".
Proof.
  split; [reflexivity|]. vm_compute. discriminate.
Qed.

End RichTextParser.

(** ** The month page and the day page *)

Section PageResolver.

Variable W : Type.
Variable R : Remote W.

Lemma find_first_match (f : BlockObject -> bool)
      (pre : list BlockObject) (page : BlockObject) (post : list BlockObject) :
  (forall q, In q pre -> isChildPage q && f q = false) ->
  isChildPage page && f page = true ->
  find f (filter isChildPage (pre ++ page :: post)) = Some page.
Proof.
  intros Hpre Hpage. apply andb_true_iff in Hpage. destruct Hpage as [Hc Hf].
  induction pre as [|q pre IH]; simpl.
  - now rewrite Hc; simpl; rewrite Hf.
  - assert (Hq := Hpre q (or_introl eq_refl)).
    assert (IH' := IH (fun x Hx => Hpre x (or_intror Hx))).
    destruct (isChildPage q); simpl; [|exact IH'].
    simpl in Hq. now rewrite Hq.
Qed.

Lemma find_no_match (f : BlockObject -> bool) (l : list BlockObject) :
  (forall q, In q l -> isChildPage q && f q = false) ->
  find f (filter isChildPage l) = None.
Proof.
  intros H. induction l as [|q l IH]; simpl; [reflexivity|].
  assert (Hq := H q (or_introl eq_refl)).
  assert (IH' := IH (fun x Hx => H x (or_intror Hx))).
  destruct (isChildPage q); simpl; [|exact IH'].
  simpl in Hq. now rewrite Hq.
Qed.

(** C7: when the listing of the root answers, [handlePageContext]
    returns the first entry, in the order of the listing, that is a
    child page whose title contains the month name of the clock, and
    calls nothing else; when no entry is one, it calls [pages.create]
    once, under the root and with the month name as the title, and
    returns the page of the answer. *)
Theorem handlePageContext_finds_or_creates
        (w : W) (rootId : str) (response : ListResponse) (w1 : W) :
  list_children R rootId w = (inr response, w1) ->
  let '(date, w2) := clock R w1 in
  let currentMonth := monthLong date locale_default in
  let matches page := isChildPage page && titleHasMonth currentMonth page in
  (forall pre page post,
      results response = pre ++ page :: post ->
      (forall q, In q pre -> matches q = false) ->
      matches page = true ->
      run R (handlePageContext rootId) w
      = (inr (ExistingPage page), w2,
         [EvList rootId (inr response); EvDate date]))
  /\
  ((forall q, In q (results response) -> matches q = false) ->
   let params := mkCreate rootId currentMonth None in
   let '(outcome, w3) := create_page R params w2 in
   run R (handlePageContext rootId) w
   = (match outcome with
      | inl e => inl e
      | inr newMonthPage => inr (CreatedPage newMonthPage)
      end, w3,
      [EvList rootId (inr response); EvDate date; EvCreate params outcome])).
Proof.
  intros Hl. destruct (clock R w1) as [date w2] eqn:Hc. split.
  - intros pre page post Hr Hpre Hpage.
    unfold handlePageContext. cbn [run bind blocks_children_list newDate].
    rewrite Hl. cbn [settle bind run]. rewrite Hc.
    rewrite Hr, (find_first_match _ _ _ _ Hpre Hpage). reflexivity.
  - intros Hnone params.
    destruct (create_page R params w2) as [outcome w3] eqn:Hp.
    unfold handlePageContext. cbn [run bind blocks_children_list newDate].
    rewrite Hl. cbn [settle bind run]. rewrite Hc.
    rewrite (find_no_match _ _ Hnone).
    cbn [run bind pages_create]. fold params. rewrite Hp.
    destruct outcome; reflexivity.
Qed.

End PageResolver.

Lemma handlePageContext_finds_or_creates_witness :
  run (storeWith sampleListing) (handlePageContext defaultParentId) 0
  = (inr (ExistingPage marchPage), 0,
     [EvList defaultParentId (inr sampleListing); EvDate sampleDate])
  /\ run (storeWith (mkListResponse [textBlock; februaryPage]))
         (handlePageContext defaultParentId) 0
     = (inr (CreatedPage newPage), 1,
        [EvList defaultParentId
                (inr (mkListResponse [textBlock; februaryPage]));
         EvDate sampleDate;
         EvCreate (mkCreate defaultParentId (js "March") None) (inr newPage)]).
Proof.
  split.
  - apply (proj1 (handlePageContext_finds_or_creates
                    nat (storeWith sampleListing) 0 defaultParentId
                    sampleListing 0 eq_refl)
             [textBlock; februaryPage] marchPage [marchNotesPage]).
    + reflexivity.
    + intros q [<-|[<-|[]]]; reflexivity.
    + reflexivity.
  - apply (proj2 (handlePageContext_finds_or_creates
                    nat (storeWith (mkListResponse [textBlock; februaryPage]))
                    0 defaultParentId
                    (mkListResponse [textBlock; februaryPage]) 0 eq_refl)).
    intros q [<-|[<-|[]]]; reflexivity.
Defined.

Section DayPage.

Variable W : Type.
Variable R : Remote W.

(** C8: [createDayPage] calls the converter once, on the content of the
    digest, and calls [pages.create] once: under the month page, with
    the title made of the long month name, a space and the ordinal of
    the day, and with the blocks of that conversion, in their order, as
    the children; the page of the answer is what it returns. *)
Theorem createDayPage_attaches_conversion
        (w : W) (monthPageId : str) (digest : Digest) :
  let '(date, w1) := clock R w in
  let title :=
    monthLong date locale_en_US ++ js " " ++ getOrdinalSuffix (getDate date) in
  let params :=
    mkCreate monthPageId title
             (Some (convertContentToBlocks (content digest))) in
  let '(outcome, w2) := create_page R params w1 in
  let '(res, w', tr) := run R (createDayPage monthPageId digest) w in
  filter isConvert tr = [EvConvert (content digest)]
  /\ filter isCreate tr = [EvCreate params outcome]
  /\ w' = w2
  /\ (forall response, outcome = inr response -> res = inr response).
Proof.
  unfold createDayPage.
  cbn [run bind tryCatch newDate this_convertContentToBlocks pages_create].
  destruct (clock R w) as [date w1].
  cbn [run bind tryCatch settle].
  destruct (create_page R _ w1) as [[e|response] w2];
    cbn [run bind tryCatch settle console_error];
    repeat split; intros ? [=]; congruence.
Qed.

Lemma run_updateMorningBriefDb (w : W) (digest : Digest) :
  run R (updateMorningBriefDb digest) w
  = let '(listed, w1) := list_children R defaultParentId w in
    match listed with
    | inl e =>
        (inl (notionError e), w1,
         [EvList defaultParentId listed;
          EvConsoleError (js "Error updating Notion:") e])
    | inr response =>
        let '(date, w2) := clock R w1 in
        let currentMonth := monthLong date locale_default in
        let found :=
          find (titleHasMonth currentMonth)
               (filter isChildPage (results response)) in
        let head := [EvList defaultParentId listed; EvDate date] in
        let day (monthPage : MonthPage) (w3 : W) (head : list event) :=
          let '(date', w4) := clock R w3 in
          let params :=
            mkCreate (id monthPage)
                     (monthLong date' locale_en_US ++ js " "
                      ++ getOrdinalSuffix (getDate date'))
                     (Some (convertContentToBlocks (content digest))) in
          let '(created, w5) := create_page R params w4 in
          let tr :=
            head ++ [EvDate date'; EvConvert (content digest);
                     EvCreate params created] in
          match created with
          | inl e =>
              (inl (notionError (dayPageError e)), w5,
               tr ++ [EvConsoleError
                        (js "Error creating day page in Notion:") e;
                      EvConsoleError (js "Error updating Notion:")
                                     (dayPageError e)])
          | inr dayPage => (inr dayPage, w5, tr)
          end in
        match found with
        | Some page => day (ExistingPage page) w2 head
        | None =>
            let params := mkCreate defaultParentId currentMonth None in
            let '(created, w3) := create_page R params w2 in
            match created with
            | inl e =>
                (inl (notionError e), w3,
                 head ++ [EvCreate params created;
                          EvConsoleError (js "Error updating Notion:") e])
            | inr newMonthPage =>
                day (CreatedPage newMonthPage) w3
                    (head ++ [EvCreate params created])
            end
        end
    end.
Proof.
  unfold updateMorningBriefDb, handlePageContext, createDayPage.
  cbn [run bind tryCatch blocks_children_list newDate].
  destruct (list_children R defaultParentId w) as [[e|response] w1];
    cbn [run bind tryCatch settle console_error]; [reflexivity|].
  destruct (clock R w1) as [date w2].
  destruct (find _ _) as [page|];
    cbn [run bind tryCatch settle console_error pages_create
             this_convertContentToBlocks].
  - destruct (clock R w2) as [date' w4].
    cbn [run bind tryCatch settle].
    destruct (create_page R _ w4) as [[e|dayPage] w5];
      cbn [run bind tryCatch settle console_error]; reflexivity.
  - destruct (create_page R _ w2) as [[e|newMonthPage] w3];
      cbn [run bind tryCatch settle console_error]; [reflexivity|].
    destruct (clock R w3) as [date' w4].
    cbn [run bind tryCatch settle].
    destruct (create_page R _ w4) as [[e|dayPage] w5];
      cbn [run bind tryCatch settle console_error]; reflexivity.
Qed.

Ltac rejected e :=
  split;
  [ split; [intros _; cbn; discriminate | intros _; eexists; reflexivity]
  | split; [reflexivity|];
    split;
    [ let H := fresh in
      intros ? H; injection H as <-; exists e;
      split; [reflexivity | (left; reflexivity) || (right; reflexivity)]
    | let H := fresh in intros ? H; discriminate H ] ].

Ltac fulfilled :=
  split;
  [ split;
    [ let H := fresh in intros [? H]; discriminate H
    | let H := fresh in intros H; exfalso; apply H; reflexivity ]
  | split; [reflexivity|];
    split;
    [ let H := fresh in intros ? H; discriminate H
    | intros ? _; reflexivity ] ].

(** C9: [updateMorningBriefDb] throws exactly when a client call of
    the run was rejected.  Then one call was rejected, no client call
    follows it, and what is thrown is an [Error] whose message is
    [Notion Error: ] followed by the string of what was caught: the
    rejection itself, or the error in which [createDayPage] wrapped
    it. *)
Theorem updateMorningBriefDb_propagates (w : W) (digest : Digest) :
  let '(res, w', tr) := run R (updateMorningBriefDb digest) w in
  ((exists e, res = inl e) <-> failures tr <> [])
  /\ stopsAtFailure tr = true
  /\ (forall e,
         res = inl e ->
         exists cause,
           failures tr = [cause]
           /\ (e = ErrorObject (js "Notion Error: " ++ toString cause)
               \/ e = ErrorObject
                        (js "Notion Error: Error: Failed to create day page in Notion: "
                         ++ toString cause)))
  /\ (forall dayPage, res = inr dayPage -> failures tr = []).
Proof.
  rewrite run_updateMorningBriefDb.
  destruct (list_children R defaultParentId w) as [[e|response] w1];
    [rejected e|].
  destruct (clock R w1) as [date w2]. cbv zeta.
  destruct (find _ _) as [page|].
  - destruct (clock R w2) as [date' w4].
    destruct (create_page R _ w4) as [[e|dayPage] w5];
      [rejected e | fulfilled].
  - destruct (create_page R _ w2) as [[e|newMonthPage] w3];
      [rejected e|].
    destruct (clock R w3) as [date' w4].
    destruct (create_page R _ w4) as [[e|dayPage] w5];
      [rejected e | fulfilled].
Qed.

End DayPage.

Lemma createDayPage_attaches_conversion_witness :
  fst (fst (run (storeWith sampleListing)
                (createDayPage (js "p2")
                               (mkDigest (js "---" ++ newline ++ js "- a")))
                0))
  = inr newPage.
Proof.
  exact (proj2 (proj2 (proj2
           (createDayPage_attaches_conversion
              nat (storeWith sampleListing) 0 (js "p2")
              (mkDigest (js "---" ++ newline ++ js "- a")))))
           newPage eq_refl).
Defined.

Lemma updateMorningBriefDb_propagates_witness :
  exists cause,
    failures (snd (run (readOnlyStore sampleListing)
                       (updateMorningBriefDb (mkDigest (js "---"))) 0))
    = [cause]
    /\ (notionError (dayPageError (Rejected (js "validation_error")))
        = ErrorObject (js "Notion Error: " ++ toString cause)
        \/ notionError (dayPageError (Rejected (js "validation_error")))
           = ErrorObject
               (js "Notion Error: Error: Failed to create day page in Notion: "
                ++ toString cause)).
Proof.
  exact (proj1 (proj2 (proj2
           (updateMorningBriefDb_propagates
              nat (readOnlyStore sampleListing) 0 (mkDigest (js "---")))))
           (notionError (dayPageError (Rejected (js "validation_error"))))
           eq_refl).
Defined.

(** ** More on parseRichText *)

Section ParserShape.

Lemma includes_suffix (p a b : str) :
  includes p (a ++ b) = false -> includes p b = false.
Proof.
  induction a as [|c a IH]; [tauto|].
  intros H. apply includes_false_inv in H. apply IH, H.
Qed.

Lemma no_match_without_separator (s : str) :
  includes (js "](") s = false -> matchHere linkPattern s = None.
Proof.
  intros H. destruct (matchHere linkPattern s) as [n|] eqn:E; [|reflexivity].
  destruct (link_match_shape _ _ E) as [_ H']. congruence.
Qed.

Lemma splitCaptureLoop_no_match (s : str) :
  includes (js "](") s = false ->
  forall piece,
    splitCaptureLoop linkPattern 0 piece s = [rev piece ++ s].
Proof.
  induction s as [|c s IH]; intros H piece.
  - simpl. now rewrite app_nil_r.
  - cbn [splitCaptureLoop].
    rewrite (no_match_without_separator _ H).
    apply includes_false_inv in H. destruct H as [_ H].
    rewrite (IH H). simpl. now rewrite <- app_assoc.
Qed.

(** X1: A text in which [](] does not occur has no link: it is parsed to
    one plain span that carries the text, whatever brackets it has. *)
Theorem parseRichText_without_link (text : str) :
  includes (js "](") text = false ->
  parseRichText text = [PlainText text].
Proof.
  intros H. unfold parseRichText, splitCapture.
  rewrite (splitCaptureLoop_no_match _ H). cbn [map rev app].
  rewrite parsePart_plain; [reflexivity|].
  rewrite H. apply andb_false_r.
Qed.

Lemma parseRichText_without_link_witness :
  parseRichText (js "[draft] see (notes) [1]")
  = [PlainText (js "[draft] see (notes) [1]")].
Proof.
  apply (parseRichText_without_link (js "[draft] see (notes) [1]")).
  reflexivity.
Defined.

Lemma char_eqb_neq (a b : char) : a <> b -> char_eqb a b = false.
Proof. intros H. apply N.eqb_neq, H. Qed.

Lemma lazy_skips (c0 : char) (q : pattern) (t x : str) (m : nat) :
  Forall (fun c => c <> c0 /\ isLineTerminator c = false) t ->
  matchHere (Lit c0 :: q) x = Some m ->
  matchHere (LazyAny :: Lit c0 :: q) (t ++ x) = Some (length t + m).
Proof.
  intros Ht Hx. induction Ht as [|c t [Hc Hl] _ IH].
  - simpl app. rewrite matchHere_lazy. now rewrite Hx.
  - change ((c :: t) ++ x) with (c :: (t ++ x)).
    rewrite matchHere_lazy, matchHere_lit, (char_eqb_neq _ _ Hc), Hl, IH.
    reflexivity.
Qed.

Lemma link_is_matched (t u rest : str) :
  Forall (fun c => c <> 93%N /\ isLineTerminator c = false) t ->
  Forall (fun c => c <> 41%N /\ isLineTerminator c = false) u ->
  matchHere linkPattern (linkText t u ++ rest)
  = Some (length (linkText t u)).
Proof.
  intros Ht Hu.
  change linkPattern
    with (Lit 91%N :: LazyAny :: Lit 93%N :: Lit 40%N :: [LazyAny; Lit 41%N]).
  replace (linkText t u ++ rest)
    with (91%N :: (t ++ 93%N :: 40%N :: (u ++ 41%N :: rest))).
  2:{ unfold linkText. simpl. rewrite <- !app_assoc. simpl.
      now rewrite <- !app_assoc. }
  rewrite matchHere_lit, char_eqb_refl.
  rewrite (lazy_skips _ _ _ _ (2 + (length u + 1)) Ht).
  - unfold linkText. simpl. repeat (rewrite length_app; simpl).
    reflexivity.
  - rewrite !matchHere_lit, !char_eqb_refl.
    rewrite (lazy_skips _ _ _ _ 1 Hu); [reflexivity|].
    rewrite matchHere_lit, char_eqb_refl. reflexivity.
Qed.

Lemma gap_is_collected (gap rest : str) :
  Forall (fun c => c <> 91%N) gap ->
  forall piece,
    splitCaptureLoop linkPattern 0 piece (gap ++ rest)
    = splitCaptureLoop linkPattern 0 (rev gap ++ piece) rest.
Proof.
  induction 1 as [|c gap Hc _ IH]; intros piece; [reflexivity|].
  change ((c :: gap) ++ rest) with (c :: (gap ++ rest)).
  cbn [splitCaptureLoop].
  replace (matchHere linkPattern (c :: gap ++ rest)) with (@None nat).
  - rewrite IH. simpl. now rewrite <- app_assoc.
  - change linkPattern
      with (Lit 91%N :: LazyAny :: Lit 93%N :: Lit 40%N
                     :: [LazyAny; Lit 41%N]).
    now rewrite matchHere_lit, (char_eqb_neq _ _ Hc).
Qed.

Lemma match_is_skipped (p : pattern) (x rest : str) :
  forall piece,
    splitCaptureLoop p (length x) piece (x ++ rest)
    = splitCaptureLoop p 0 piece rest.
Proof.
  induction x as [|c x IH]; intros piece; [reflexivity|]. apply IH.
Qed.

Lemma link_is_a_token (t u rest piece : str) :
  Forall (fun c => c <> 93%N /\ isLineTerminator c = false) t ->
  Forall (fun c => c <> 41%N /\ isLineTerminator c = false) u ->
  splitCaptureLoop linkPattern 0 piece (linkText t u ++ rest)
  = rev piece :: linkText t u :: splitCaptureLoop linkPattern 0 [] rest.
Proof.
  intros Ht Hu. assert (M := link_is_matched t u rest Ht Hu).
  remember (linkText t u) as l eqn:El.
  destruct l as [|c l]; [discriminate|].
  change ((c :: l) ++ rest) with (c :: (l ++ rest)) in *.
  cbn [splitCaptureLoop]. rewrite M. cbn [length].
  f_equal. f_equal.
  - change (c :: l ++ rest) with ((c :: l) ++ rest).
    change (S (length l)) with (length (c :: l)).
    now rewrite firstn_app, firstn_all, Nat.sub_diag, app_nil_r.
  - apply match_is_skipped.
Qed.

Lemma tokens_of_surface (items : list (str * str * str)) (tail : str) :
  Forall plainItem items ->
  includes (js "](") tail = false ->
  splitCapture linkPattern (surface items tail)
  = flat_map (fun item => let '(gap, t, u) := item in [gap; linkText t u])
             items
    ++ [tail].
Proof.
  intros Hi Ht. unfold splitCapture.
  induction Hi as [|[[gap t] u] items (Hg & Htx & Hu & _) _ IH].
  - simpl. now rewrite splitCaptureLoop_no_match.
  - cbn [surface flat_map].
    rewrite (gap_is_collected _ _ Hg), app_nil_r.
    rewrite (link_is_a_token _ _ _ _ Htx Hu), rev_involutive, IH.
    reflexivity.
Qed.

Lemma Forall_not_included (c d : char) (s : str) :
  Forall (fun x => x <> c) s -> includes [c; d] s = false.
Proof.
  induction 1 as [|x s Hx _ IH]; [reflexivity|].
  cbn [includes]. rewrite IH, startsWith_cons, (char_eqb_neq _ _ Hx).
  reflexivity.
Qed.

(** X2: A text made of gaps without [[] and of links [[t](u)] whose text
    and url have no closing bracket of their own is parsed to the
    gaps as plain spans and the links as link spans, in order; a gap
    that is empty still gives its plain span. *)
Theorem parseRichText_surface
        (items : list (str * str * str)) (tail : str) :
  Forall plainItem items ->
  includes (js "](") tail = false ->
  parseRichText (surface items tail) = spansOf items tail
  /\ render (parseRichText (surface items tail)) = surface items tail.
Proof.
  intros Hi Ht.
  assert (E : parseRichText (surface items tail) = spansOf items tail).
  { unfold parseRichText. rewrite (tokens_of_surface _ _ Hi Ht).
    induction Hi as [|[[gap t] u] items (Hg & Htx & Hu & Hu') _ IH].
    - simpl. rewrite parsePart_plain; [reflexivity|].
      rewrite Ht. apply andb_false_r.
    - cbn [flat_map app map spansOf]. rewrite IH. f_equal; [|f_equal].
      + apply parsePart_plain. destruct Hg as [|c gap Hc _]; [reflexivity|].
        change (js "[") with [91%N].
        now rewrite startsWith_cons, (char_eqb_neq _ _ Hc).
      + apply parsePart_simple.
        * apply (Forall_not_included 93%N 40%N).
          revert Htx. apply Forall_impl. tauto.
        * apply (Forall_not_included 93%N 40%N), Hu'. }
  split; [exact E|]. rewrite E. clear.
  induction items as [|[[gap t] u] items IH].
  - unfold render. simpl. apply app_nil_r.
  - unfold render in *. cbn [spansOf map concat renderSpan surface stringOf].
    rewrite IH. unfold linkText. now rewrite <- !app_assoc.
Qed.

Lemma parseRichText_surface_witness :
  parseRichText (js "read [one](http://a) and [two](http://b)!")
  = [PlainText (js "read "); Link (js "one") (Some (js "http://a"));
     PlainText (js " and "); Link (js "two") (Some (js "http://b"));
     PlainText (js "!")].
Proof.
  apply (parseRichText_surface
           [(js "read ", js "one", js "http://a");
            (js " and ", js "two", js "http://b")] (js "!")).
  - repeat (apply Forall_cons || apply Forall_nil);
      repeat split; repeat (apply Forall_cons || apply Forall_nil);
      repeat split; discriminate.
  - reflexivity.
Defined.

Lemma matchHere_le (p : pattern) (s : str) (n : nat) :
  matchHere p s = Some n -> n <= length s.
Proof. intros H. apply (matchHere_firstn p s n H). Qed.

(** A lazy atom whose pattern matches the whole string stops at the
    first place from which the rest of the pattern matches. *)
Lemma lazy_whole (q : pattern) (s : str) :
  matchHere (LazyAny :: q) s = Some (length s) ->
  exists a b,
    s = a ++ b
    /\ matchHere q b = Some (length b)
    /\ Forall (fun c => isLineTerminator c = false) a
    /\ (forall a1 a2, a = a1 ++ a2 -> a2 <> [] ->
                      matchHere q (a2 ++ b) = None).
Proof.
  induction s as [|x s IH]; rewrite matchHere_lazy.
  - destruct (matchHere q []) as [n|] eqn:E; [|discriminate].
    intros H. exists [], []. rewrite E, H.
    split; [reflexivity|]. split; [reflexivity|]. split; [constructor|].
    intros a1 a2 Ha Hn. destruct a1; [|discriminate].
    simpl in Ha. congruence.
  - destruct (matchHere q (x :: s)) as [n|] eqn:E.
    + intros H. exists [], (x :: s). rewrite E, H.
      split; [reflexivity|]. split; [reflexivity|]. split; [constructor|].
      intros a1 a2 Ha Hn. destruct a1; [|discriminate].
      simpl in Ha. congruence.
    + destruct (isLineTerminator x) eqn:L; [discriminate|].
      destruct (matchHere (LazyAny :: q) s) as [k|] eqn:E'; [|discriminate].
      intros H. injection H as ->.
      destruct (IH eq_refl) as (a & b & -> & Hb & Ha & Hmin).
      exists (x :: a), b.
      split; [reflexivity|]. split; [exact Hb|].
      split; [constructor; assumption|].
      intros [|y a1] a2 Hs Hn.
      * simpl in Hs. subst a2. exact E.
      * injection Hs as -> ->. exact (Hmin a1 a2 eq_refl Hn).
Qed.

Lemma includes_split (p s : str) :
  includes p s = true -> exists a b, s = a ++ p ++ b.
Proof.
  induction s as [|c s IH]; cbn [includes]; intros H;
    apply orb_true_iff in H; destruct H as [H|H].
  - destruct (startsWith_inv _ _ H) as [r ->]. now exists [], r.
  - discriminate.
  - destruct (startsWith_inv _ _ H) as [r ->]. now exists [], r.
  - destruct (IH H) as (a & b & ->). now exists (c :: a), b.
Qed.

Lemma closing_is_found (x y : str) :
  Forall (fun c => isLineTerminator c = false) x ->
  exists m, matchHere [LazyAny; Lit 41%N] (x ++ 41%N :: y) = Some m.
Proof.
  induction 1 as [|c x Hc _ [m IH]].
  - simpl app. rewrite matchHere_lazy, matchHere_lit, char_eqb_refl.
    now exists 1.
  - change ((c :: x) ++ 41%N :: y) with (c :: (x ++ 41%N :: y)).
    rewrite matchHere_lazy.
    destruct (matchHere [Lit 41%N] (c :: x ++ 41%N :: y)) as [k|];
      [now exists k|].
    rewrite Hc, IH. now exists (S m).
Qed.

Lemma splitLoop_nonempty (sep s : str) :
  forall skip piece, splitLoop sep skip piece s <> [].
Proof.
  induction s as [|c s IH]; intros skip piece; simpl; [discriminate|].
  destruct skip; [|apply IH].
  destruct (startsWith sep (c :: s)); [discriminate | apply IH].
Qed.

(** X3: A token that is one whole match of the link pattern is [[t](u)]
    with no [](] in [t] and no [)] in [u]; it becomes the link with
    content [t] whose url is there, not [undefined]: [u] up to its
    first [](]. *)
Theorem matched_token_decodes (part : str) :
  wrapsLink part = true ->
  exists t u,
    part = linkText t u
    /\ includes (js "](") t = false
    /\ Forall (fun c => c <> 41%N) u
    /\ Forall (fun c => isLineTerminator c = false) (t ++ u)
    /\ parsePart part = Link t (Some (nth 0 (split (js "](") u) [])).
Proof.
  unfold wrapsLink.
  destruct (matchHere linkPattern part) as [n|] eqn:E; [|discriminate].
  intros H. apply Nat.eqb_eq in H. subst n. revert E.
  change linkPattern
    with (Lit 91%N :: LazyAny :: Lit 93%N :: Lit 40%N :: [LazyAny; Lit 41%N]).
  rewrite matchHere_lit. destruct part as [|x s]; [discriminate|].
  destruct (char_eqb x 91%N) eqn:C; [|discriminate].
  apply char_eqb_eq in C. subst x.
  destruct (matchHere (LazyAny :: _) s) as [k|] eqn:E; [|discriminate].
  intros H. injection H as ->.
  destruct (lazy_whole _ _ E) as (t & b & -> & Hb & Ht & Hmin).
  rewrite matchHere_lit in Hb. destruct b as [|y b]; [discriminate|].
  destruct (char_eqb y 93%N) eqn:C1; [|discriminate].
  apply char_eqb_eq in C1. subst y. rewrite matchHere_lit in Hb.
  destruct b as [|z b]; [discriminate|].
  destruct (char_eqb z 40%N) eqn:C2; [|discriminate].
  apply char_eqb_eq in C2. subst z.
  destruct (matchHere [LazyAny; Lit 41%N] b) as [k|] eqn:E2; [|discriminate].
  injection Hb as ->.
  destruct (lazy_whole _ _ E2) as (u & b2 & -> & Hb2 & Hu & Hmin2).
  rewrite matchHere_lit in Hb2. destruct b2 as [|y b2]; [discriminate|].
  destruct (char_eqb y 41%N) eqn:C3; [|discriminate].
  apply char_eqb_eq in C3. subst y.
  destruct b2; [clear Hb2|discriminate].
  assert (Hsep : includes (js "](") t = false).
  { destruct (includes (js "](") t) eqn:I; [exfalso|reflexivity].
    destruct (includes_split _ _ I) as (a1 & a3 & ->).
    assert (N := Hmin a1 (js "](" ++ a3) eq_refl).
    change (js "](" ++ a3) with (93%N :: 40%N :: a3) in N.
    specialize (N ltac:(discriminate)).
    cbn [app] in N. rewrite !matchHere_lit, !char_eqb_refl in N.
    destruct (closing_is_found (a3 ++ 93%N :: 40%N :: u) [])
      as [m Hm].
    - apply Forall_app in Ht. destruct Ht as [_ Ht].
      change (js "](" ++ a3) with (93%N :: 40%N :: a3) in Ht.
      inversion Ht as [|? ? _ Ht']. inversion Ht' as [|? ? _ Ht''].
      apply Forall_app. split; [exact Ht''|].
      repeat (constructor; [reflexivity|]). exact Hu.
    - match type of N with
      | option_map S (option_map S ?found) = None =>
          assert (X : found = Some m)
            by (rewrite <- Hm; f_equal; rewrite <- app_assoc; reflexivity)
      end.
      rewrite X in N. discriminate. }
  assert (Hclose : Forall (fun c => c <> 41%N) u).
  { apply Forall_forall. intros c Hin ->.
    destruct (in_split _ _ Hin) as (l1 & l2 & ->).
    assert (N := Hmin2 l1 (41%N :: l2) eq_refl ltac:(discriminate)).
    cbn [app] in N. rewrite matchHere_lit, char_eqb_refl in N.
    discriminate. }
  exists t, u. split; [|split; [exact Hsep|split; [exact Hclose|split]]].
  - unfold linkText. simpl. rewrite <- ?app_assoc. reflexivity.
  - apply Forall_app. split; assumption.
  - change (parsePart (js "[" ++ t ++ js "](" ++ u ++ js ")")
            = Link t (Some (nth 0 (split (js "](") u) []))).
    replace (js "[" ++ t ++ js "](" ++ u ++ js ")")
      with (91%N :: (t ++ js "](" ++ u) ++ [41%N])
      by (simpl; now rewrite <- !app_assoc).
    rewrite parsePart_link.
    + rewrite slice_1_m1_wrapped.
      change (split (js "](") (t ++ js "](" ++ u))
        with (splitLoop (js "](") 0 [] (t ++ js "](" ++ u)).
      rewrite (splitLoop_first _ _ Hsep). cbn [rev app nth nth_error].
      change (split (js "](") u) with (splitLoop (js "](") 0 [] u).
      destruct (splitLoop (js "](") 0 [] u) as [|u1 us] eqn:Eu;
        [exfalso; exact (splitLoop_nonempty _ _ _ _ Eu) | reflexivity].
    + change (js "[") with [91%N]. rewrite startsWith_cons, char_eqb_refl.
      cbn [andb startsWith]. apply includes_cons.
      assert (G : (t ++ js "](" ++ u) ++ [41%N]
                  = t ++ js "](" ++ (u ++ [41%N]))
        by (rewrite <- app_assoc; reflexivity).
      rewrite G. apply includes_app.
Qed.

Lemma matched_token_decodes_witness :
  exists t u,
    js "[a](b](c)" = linkText t u
    /\ includes (js "](") t = false
    /\ Forall (fun c => c <> 41%N) u
    /\ Forall (fun c => isLineTerminator c = false) (t ++ u)
    /\ parsePart (js "[a](b](c)")
       = Link t (Some (nth 0 (split (js "](") u) [])).
Proof.
  apply (matched_token_decodes (js "[a](b](c)")). reflexivity.
Defined.

End ParserShape.

(** ** More on the loop of the converter *)

Section LoopShape.

Lemma marked_false (line : str) :
  isMarked line = false ->
  startsWith (js "# ") line = false
  /\ startsWith (js "## ") line = false
  /\ startsWith (js "### ") line = false
  /\ startsWith (js "- ") line = false.
Proof.
  unfold isMarked. intros H.
  apply orb_false_iff in H. destruct H as [H H4].
  apply orb_false_iff in H. destruct H as [H H3].
  apply orb_false_iff in H. destruct H as [H1 H2]. auto.
Qed.

Lemma step_text_line (st : loopState) (line : str) :
  skipIntroduction st = false ->
  isTextLine line = true ->
  step st line = collecting (blocks st) (currentParagraph st ++ line).
Proof.
  intros Hs H. unfold isTextLine in H.
  apply andb_true_iff in H. destruct H as [Hm Hb].
  apply negb_true_iff in Hm, Hb.
  destruct (marked_false _ Hm) as (H1 & H2 & H3 & H4).
  unfold step. now rewrite Hs, H1, H2, H3, H4, Hb.
Qed.

Lemma fold_text_lines (lines : list str) :
  Forall (fun line => isTextLine line = true) lines ->
  forall bs acc,
    fold_left step lines (collecting bs acc)
    = collecting bs (acc ++ concat lines).
Proof.
  induction 1 as [|l lines Hl _ IH]; intros bs acc; simpl.
  - now rewrite app_nil_r.
  - rewrite (step_text_line (collecting bs acc) l eq_refl Hl).
    cbn [blocks currentParagraph collecting].
    rewrite IH. now rewrite app_assoc.
Qed.

(** X4: consecutive lines of text are put together with nothing between
    them: the lines that are neither blank nor prefixed give, at the
    next flush, one paragraph whose text is their concatenation after
    what was pending. *)
Theorem text_lines_are_fused
        (lines : list str) (bs : list (option Block)) (acc : str) :
  Forall (fun line => isTextLine line = true) lines ->
  fold_left step lines (collecting bs acc)
  = collecting bs (acc ++ concat lines)
  /\ finish (fold_left step lines (collecting bs acc))
     = dropNulls bs ++ flushed (acc ++ concat lines).
Proof.
  intros H. rewrite (fold_text_lines _ H). split; [reflexivity|].
  apply finish_flushed.
Qed.

Lemma text_lines_are_fused_witness :
  finish (fold_left step [js "Hello"; js "world"] (collecting [] []))
  = [Paragraph [PlainText (js "Helloworld")]].
Proof.
  apply (text_lines_are_fused [js "Hello"; js "world"] [] []).
  repeat constructor.
Defined.

Lemma blank_is_not_marked (line : str) :
  trim line = js "" -> isMarked line = false.
Proof.
  intros Hb. unfold isMarked.
  destruct (startsWith (js "# ") line) eqn:H1.
  { apply startsWith_inv in H1. destruct H1 as [r ->].
    now destruct (trim_cons_nonblank 35%N (32%N :: r) eq_refl). }
  destruct (startsWith (js "## ") line) eqn:H2.
  { apply startsWith_inv in H2. destruct H2 as [r ->].
    now destruct (trim_cons_nonblank 35%N (35%N :: 32%N :: r) eq_refl). }
  destruct (startsWith (js "### ") line) eqn:H3.
  { apply startsWith_inv in H3. destruct H3 as [r ->].
    now destruct
          (trim_cons_nonblank 35%N (35%N :: 35%N :: 32%N :: r) eq_refl). }
  destruct (startsWith (js "- ") line) eqn:H4; [|reflexivity].
  apply startsWith_inv in H4. destruct H4 as [r ->].
  now destruct (trim_cons_nonblank 45%N (32%N :: r) eq_refl).
Qed.

Lemma step_blank (st : loopState) (line : str) :
  skipIntroduction st = false ->
  trim line = js "" ->
  step st line = flushParagraph st.
Proof.
  intros Hs Hb.
  destruct (marked_false _ (blank_is_not_marked _ Hb)) as (H1 & H2 & H3 & H4).
  unfold step. rewrite Hs, H1, H2, H3, H4, Hb. reflexivity.
Qed.

Lemma flushParagraph_twice (st : loopState) :
  flushParagraph (flushParagraph st) = flushParagraph st.
Proof.
  unfold flushParagraph.
  destruct (currentParagraph st) eqn:E; simpl.
  - now rewrite E.
  - reflexivity.
Qed.

Lemma flushParagraph_collecting (st : loopState) :
  skipIntroduction (flushParagraph st) = skipIntroduction st.
Proof.
  unfold flushParagraph. now destruct (currentParagraph st).
Qed.

Lemma step_stays_collecting (st : loopState) (line : str) :
  skipIntroduction st = false -> skipIntroduction (step st line) = false.
Proof.
  intros Hs. unfold step. rewrite Hs. cbv iota.
  repeat match goal with
         | |- context [if ?b then _ else _] => destruct b
         end; cbn [push skipIntroduction];
    rewrite ?flushParagraph_collecting; auto.
Qed.

Lemma fold_stays_collecting (lines : list str) (st : loopState) :
  skipIntroduction st = false ->
  skipIntroduction (fold_left step lines st) = false.
Proof.
  revert st. induction lines as [|l lines IH]; intros st Hs; simpl;
    [assumption|].
  apply IH, step_stays_collecting, Hs.
Qed.

Lemma flushParagraph_shape (st : loopState) :
  flushParagraph st
  = mkLoop (blocks (flushParagraph st)) [] (skipIntroduction st).
Proof.
  unfold flushParagraph. destruct st as [bs [|c acc] skip]; reflexivity.
Qed.

(** X5: after the separator a blank line flushes the pending paragraph
    and does nothing else: the step is the flush, so the output gains
    the paragraph of the pending text, if it gives one, and nothing is
    pending afterwards.  Text lines before and after a blank line are
    therefore two paragraphs, not one; a run of blank lines counts as
    one, and a blank line when nothing is pending changes nothing. *)
Theorem blank_lines_collapse (pre post : list str) (blank blank' : str) :
  trim blank = js "" ->
  trim blank' = js "" ->
  (forall st, skipIntroduction st = false ->
              step st blank = flushParagraph st
              /\ dropNulls (blocks (step st blank))
                 = dropNulls (blocks st) ++ flushed (currentParagraph st)
              /\ currentParagraph (step st blank) = [])
  /\ (Forall (fun line => isTextLine line = true) pre ->
      Forall (fun line => isTextLine line = true) post ->
      collectLines (pre ++ blank :: post)
      = flushed (concat pre) ++ flushed (concat post))
  /\ collectLines (pre ++ blank :: blank' :: post)
     = collectLines (pre ++ blank :: post)
  /\ (forall bs, step (collecting bs []) blank = collecting bs []).
Proof.
  intros Hb Hb'. split; [|split; [|split]].
  - intros st Hs. rewrite (step_blank st blank Hs Hb).
    split; [reflexivity|]. split; [apply flushParagraph_blocks|].
    now rewrite flushParagraph_shape.
  - intros Hpre Hpost. unfold collectLines.
    rewrite fold_left_app. cbn [fold_left].
    rewrite (fold_text_lines pre Hpre [] []). cbn [app].
    rewrite (step_blank (collecting [] (concat pre)) blank eq_refl Hb).
    rewrite flushParagraph_shape. cbn [skipIntroduction collecting].
    change (mkLoop ?bs [] false) with (collecting bs []).
    rewrite (fold_text_lines post Hpost). cbn [app].
    rewrite finish_flushed. cbn [blocks currentParagraph collecting].
    now rewrite flushParagraph_blocks.
  - unfold collectLines. rewrite !fold_left_app. cbn [fold_left].
    set (st := fold_left step pre (collecting [] [])).
    assert (Hs : skipIntroduction st = false)
      by (apply fold_stays_collecting; reflexivity).
    rewrite (step_blank st blank Hs Hb).
    rewrite (step_blank _ blank') by
        (rewrite ?flushParagraph_collecting; assumption).
    now rewrite flushParagraph_twice.
  - intros bs. now rewrite step_blank.
Qed.

Lemma blank_lines_collapse_witness :
  collectLines [js "one"; js ""; js "two"]
  = [Paragraph [PlainText (js "one")]; Paragraph [PlainText (js "two")]]
  /\ collectLines [js "one"; js ""; js "   "; js "two"]
     = collectLines [js "one"; js ""; js "two"].
Proof.
  split.
  - apply (proj1 (proj2 (blank_lines_collapse
                           [js "one"] [js "two"] (js "") (js "   ")
                           eq_refl eq_refl)));
      repeat constructor.
  - apply (proj1 (proj2 (proj2 (blank_lines_collapse
                                  [js "one"] [js "two"] (js "") (js "   ")
                                  eq_refl eq_refl)))).
Defined.

Lemma trimStart_snoc2 (a : str) (x c : char) :
  isTrimmed c = false ->
  trimStart (a ++ [x; c]) = [c]
  \/ exists t, trimStart (a ++ [x; c]) = t ++ [x; c].
Proof.
  intros Hc. induction a as [|y a IH]; simpl.
  - rewrite Hc. destruct (isTrimmed x); [now left | right; now exists []].
  - destruct (isTrimmed y); [exact IH|]. right. now exists (y :: a).
Qed.

Lemma trimStart_snoc (a : str) (c : char) :
  isTrimmed c = false -> exists t, trimStart (a ++ [c]) = t ++ [c].
Proof.
  intros Hc. induction a as [|y a IH]; simpl.
  - rewrite Hc. now exists [].
  - destruct (isTrimmed y); [exact IH|]. now exists (y :: a).
Qed.

Lemma trim_head (c : char) (s : str) :
  isTrimmed c = false -> exists t, trim (c :: s) = c :: t.
Proof.
  intros Hc. unfold trim. rewrite (trimStart_no_white _ _ Hc).
  unfold trimEnd. cbn [rev].
  destruct (trimStart_snoc (rev s) c Hc) as [t ->].
  exists (rev t). now rewrite rev_app_distr.
Qed.

Lemma trim_head2 (c x : char) (s : str) :
  isTrimmed c = false ->
  trim (c :: x :: s) = [c] \/ exists t, trim (c :: x :: s) = c :: x :: t.
Proof.
  intros Hc. unfold trim. rewrite (trimStart_no_white _ _ Hc).
  unfold trimEnd. cbn [rev]. rewrite <- app_assoc. cbn [app].
  destruct (trimStart_snoc2 (rev s) x c Hc) as [->|[t ->]].
  - now left.
  - right. exists (rev t). now rewrite rev_app_distr.
Qed.

Lemma separator_is_text_line (line : str) :
  trim line = js "---" -> isTextLine line = true.
Proof.
  intros H. unfold isTextLine. rewrite H. cbn [negb andb str_eqb js].
  rewrite andb_true_r. apply negb_true_iff. unfold isMarked.
  destruct (startsWith (js "# ") line) eqn:H1.
  { apply startsWith_inv in H1. destruct H1 as [r ->].
    destruct (trim_head 35%N (32%N :: r) eq_refl) as [t E].
    assert (X := eq_trans (eq_sym E) H). discriminate X. }
  destruct (startsWith (js "## ") line) eqn:H2.
  { apply startsWith_inv in H2. destruct H2 as [r ->].
    destruct (trim_head 35%N (35%N :: 32%N :: r) eq_refl) as [t E].
    assert (X := eq_trans (eq_sym E) H). discriminate X. }
  destruct (startsWith (js "### ") line) eqn:H3.
  { apply startsWith_inv in H3. destruct H3 as [r ->].
    destruct (trim_head 35%N (35%N :: 35%N :: 32%N :: r) eq_refl) as [t E].
    assert (X := eq_trans (eq_sym E) H). discriminate X. }
  destruct (startsWith (js "- ") line) eqn:H4; [|reflexivity].
  apply startsWith_inv in H4. destruct H4 as [r ->].
  destruct (trim_head2 45%N 32%N r eq_refl) as [E|[t E]];
    assert (X := eq_trans (eq_sym E) H); discriminate X.
Qed.

(** X6: only the first separator is one: after it the loop never skips
    again, and a later line that trims to [---] is appended to the
    pending paragraph like any text. *)
Theorem later_separator_is_text
        (bs : list (option Block)) (acc line : str) (lines : list str) :
  trim line = js "---" ->
  step (collecting bs acc) line = collecting bs (acc ++ line)
  /\ skipIntroduction (fold_left step lines (collecting bs acc)) = false.
Proof.
  intros H. split.
  - apply (step_text_line (collecting bs acc) line eq_refl).
    apply separator_is_text_line, H.
  - apply fold_stays_collecting. reflexivity.
Qed.

Lemma later_separator_is_text_witness :
  step (collecting [] (js "above")) (js "---")
  = collecting [] (js "above---").
Proof.
  apply (later_separator_is_text [] (js "above") (js "---") []).
  reflexivity.
Defined.

(** The blocks that are not paragraphs, counted. *)
Let others (bs : list Block) : nat :=
  length (filter (fun b => negb (isParagraph b)) bs).

Lemma others_app (a b : list Block) : others (a ++ b) = others a + others b.
Proof. unfold others. now rewrite filter_app, length_app. Qed.

Lemma others_flushed (acc : str) : others (flushed acc) = 0.
Proof.
  unfold flushed. destruct acc; [reflexivity|].
  now destruct (includes _ _).
Qed.

Lemma others_step (st : loopState) (line : str) :
  skipIntroduction st = false ->
  others (dropNulls (blocks (step st line)))
  = others (dropNulls (blocks st)) + (if isMarked line then 1 else 0).
Proof.
  intros Hs. unfold step, isMarked. rewrite Hs.
  assert (F : others (dropNulls (blocks (flushParagraph st)))
              = others (dropNulls (blocks st)))
    by (rewrite flushParagraph_blocks, others_app, others_flushed; lia).
  assert (P : forall b, isParagraph b = false ->
                others (dropNulls (blocks (push (Some b) (flushParagraph st))))
                = others (dropNulls (blocks st)) + 1).
  { intros b Hb. cbn [push blocks].
    rewrite dropNulls_app, others_app, F. f_equal.
    unfold others. simpl. now rewrite Hb. }
  destruct (startsWith (js "# ") line); [now apply P|].
  destruct (startsWith (js "## ") line); [now apply P|].
  destruct (startsWith (js "### ") line); [now apply P|].
  destruct (startsWith (js "- ") line); [now apply P|].
  cbn [orb]. destruct (str_eqb (trim line) (js "")).
  - rewrite F. lia.
  - cbn [blocks]. lia.
Qed.

Lemma others_fold (lines : list str) (st : loopState) :
  skipIntroduction st = false ->
  others (dropNulls (blocks (fold_left step lines st)))
  = others (dropNulls (blocks st)) + length (filter isMarked lines).
Proof.
  revert st. induction lines as [|l lines IH]; intros st Hs; simpl; [lia|].
  rewrite IH by (apply step_stays_collecting, Hs).
  rewrite (others_step _ _ Hs).
  destruct (isMarked l); simpl; lia.
Qed.

(** X7: every heading line and every bullet line after the separator gives
    one block, whatever its text: the output has as many blocks that
    are not paragraphs as there are lines with one of the four
    prefixes.  Neither an empty text nor [AI Summarized] removes one. *)
Theorem marked_lines_are_kept (lines : list str) :
  length (filter (fun b => negb (isParagraph b)) (collectLines lines))
  = length (filter isMarked lines).
Proof.
  change (others (collectLines lines) = length (filter isMarked lines)).
  unfold collectLines.
  rewrite finish_flushed, others_app, others_flushed.
  rewrite (others_fold lines (collecting [] []) eq_refl). simpl. lia.
Qed.

Lemma trimStart_head (s : str) (x : char) :
  hd_error (trimStart s) = Some x -> isTrimmed x = false.
Proof.
  induction s as [|c s IH]; simpl; [discriminate|].
  destruct (isTrimmed c) eqn:E; [exact IH|].
  simpl. now intros [= <-].
Qed.

Lemma trim_ends (s : str) (x : char) :
  hd_error (trim s) = Some x \/ hd_error (rev (trim s)) = Some x ->
  isTrimmed x = false.
Proof.
  intros [H|H].
  - unfold trim in H. destruct (trimStart s) as [|c t] eqn:E; [discriminate|].
    assert (Hc : isTrimmed c = false)
      by (apply (trimStart_head s); now rewrite E).
    assert (T : exists t', trimEnd (c :: t) = c :: t').
    { destruct (trim_head c t Hc) as [t' Ht']. exists t'.
      unfold trim in Ht'. now rewrite (trimStart_no_white _ _ Hc) in Ht'. }
    destruct T as [t' T]. rewrite T in H. simpl in H. now injection H as <-.
  - unfold trim, trimEnd in H. rewrite rev_involutive in H.
    now apply trimStart_head in H.
Qed.

Lemma removeAll_without_at (s : str) :
  Forall (fun c => c <> 64%N) s -> removeAll placeholderPattern s = s.
Proof.
  unfold removeAll. induction 1 as [|c s Hc _ IH]; [reflexivity|].
  cbn [removeAllLoop].
  replace (matchHere placeholderPattern (c :: s)) with (@None nat).
  - now rewrite IH.
  - change placeholderPattern
      with (Lit 64%N :: Lit 40%N :: Lit 91%N :: LazyAny :: Lit 93%N
                     :: Lit 40%N :: LazyAny :: [Lit 41%N; Lit 41%N]).
    now rewrite matchHere_lit, (char_eqb_neq _ _ Hc).
Qed.

(** X8: the text of a heading is one plain span that neither begins nor
    ends with a white space or a line terminator; it may be empty.
    When the rest of the line has no [@], it is that rest, trimmed. *)
Theorem heading_text_is_trimmed (text : str) (type : headingType) :
  exists c,
    createHeadingBlock text type = Heading type [PlainText c]
    /\ (forall x, hd_error c = Some x \/ hd_error (rev c) = Some x ->
                  isTrimmed x = false)
    /\ (Forall (fun c => c <> 64%N) text -> c = trim text).
Proof.
  exists (trim (removeAll placeholderPattern text)).
  split; [reflexivity|]. split.
  - intros x. apply trim_ends.
  - intros H. now rewrite removeAll_without_at.
Qed.

Lemma heading_text_is_trimmed_witness :
  exists c,
    createHeadingBlock (js "  Top stories  ") heading_2
    = Heading heading_2 [PlainText c]
    /\ c = trim (js "  Top stories  ").
Proof.
  destruct (heading_text_is_trimmed (js "  Top stories  ") heading_2)
    as (c & Hc & _ & Ht).
  exists c. split; [exact Hc|]. apply Ht.
  repeat constructor; discriminate.
Defined.

End LoopShape.

(** ** The ordinal of any integer *)

Section OrdinalEdge.

Let suffixAt (v : Z) : option str :=
  jsOr (jsOr (arrayGet suffixes (Z.rem (v - 20) 10)) (arrayGet suffixes v))
       (arrayGet suffixes 0).

Let known (x : option str) : bool :=
  match x with
  | Some s => existsb (str_eqb s) suffixes
  | None => false
  end.

Lemma suffixAt_checked (v : Z) :
  (-100 < v < 100)%Z ->
  known (suffixAt v) = true
  /\ ((v <= 0)%Z -> suffixAt v = Some (js "th")).
Proof.
  intros Hv.
  assert (T : forallb
                (fun k =>
                   let v := (Z.of_nat k - 99)%Z in
                   known (suffixAt v)
                   && (if (v <=? 0)%Z
                       then match suffixAt v with
                            | Some s => str_eqb s (js "th")
                            | None => false
                            end
                       else true))
                (seq 0 199) = true) by (vm_compute; reflexivity).
  rewrite forallb_forall in T.
  specialize (T (Z.to_nat (v + 99))).
  cbv zeta in T.
  replace (Z.of_nat (Z.to_nat (v + 99)) - 99)%Z with v in T by lia.
  assert (I : In (Z.to_nat (v + 99)) (seq 0 199)) by (apply in_seq; lia).
  apply T in I. apply andb_true_iff in I. destruct I as [I1 I2].
  split; [exact I1|]. intros Hle.
  apply Z.leb_le in Hle. rewrite Hle in I2.
  destruct (suffixAt v) as [s|]; [|discriminate].
  apply str_eqb_eq in I2. now subst s.
Qed.

(** X9: for every integer the suffix is one of [th], [st], [nd], [rd],
    never [undefined]; for zero and for a negative number it is
    [th]. *)
Theorem ordinal_suffix_of_any_integer (n : Z) :
  (exists s, ordinalSuffixOf n = Some s /\ In s suffixes)
  /\ ((n <= 0)%Z -> getOrdinalSuffix n = numberToString n ++ js "th").
Proof.
  change (ordinalSuffixOf n) with (suffixAt (Z.rem n 100)).
  assert (B : (-100 < Z.rem n 100 < 100)%Z).
  { assert (A := Z.rem_bound_abs n 100 ltac:(lia)). lia. }
  destruct (suffixAt_checked _ B) as [K Hth]. split.
  - destruct (suffixAt (Z.rem n 100)) as [s|]; [|discriminate].
    exists s. split; [reflexivity|].
    unfold known in K. apply existsb_exists in K.
    destruct K as (x & Hx & E).
    apply str_eqb_eq in E. now subst x.
  - intros Hn. unfold getOrdinalSuffix.
    change (ordinalSuffixOf n) with (suffixAt (Z.rem n 100)).
    rewrite Hth; [reflexivity|]. apply Z.rem_nonpos; lia.
Qed.

Lemma ordinal_suffix_of_any_integer_witness :
  getOrdinalSuffix 0 = js "0th" /\ getOrdinalSuffix (-1) = js "-1th".
Proof.
  split.
  - apply (proj2 (ordinal_suffix_of_any_integer 0)). lia.
  - apply (proj2 (ordinal_suffix_of_any_integer (-1))). lia.
Defined.

End OrdinalEdge.

(** ** How the asynchronous methods compose *)

Section Composition.

Variable W : Type.
Variable R : Remote W.

Lemma run_bind (A B : Type) (m : Async A) (f : A -> Async B) (w : W) :
  run R (bind m f) w
  = let '(r, w1, tr1) := run R m w in
    match r with
    | inl e => (inl e, w1, tr1)
    | inr a =>
        let '(r2, w2, tr2) := run R (f a) w1 in (r2, w2, tr1 ++ tr2)
    end.
Proof.
  revert w.
  induction m as [a|e|i k IH|ps k IH|k IH|l e k IH|t k IH]; intros w;
    cbn [bind run].
  - now destruct (run R (f a) w) as [[r2 w2] tr2].
  - reflexivity.
  - destruct (list_children R i w) as [r w1]. rewrite IH.
    destruct (run R (k r) w1) as [[[e|a] w2] tr]; [reflexivity|].
    now destruct (run R (f a) w2) as [[r2 w3] tr2].
  - destruct (create_page R ps w) as [r w1]. rewrite IH.
    destruct (run R (k r) w1) as [[[e|a] w2] tr]; [reflexivity|].
    now destruct (run R (f a) w2) as [[r2 w3] tr2].
  - destruct (clock R w) as [d w1]. rewrite IH.
    destruct (run R (k d) w1) as [[[e|a] w2] tr]; [reflexivity|].
    now destruct (run R (f a) w2) as [[r2 w3] tr2].
  - rewrite IH.
    destruct (run R k w) as [[[e'|a] w2] tr]; [reflexivity|].
    now destruct (run R (f a) w2) as [[r2 w3] tr2].
  - rewrite IH.
    destruct (run R (k (convertContentToBlocks t)) w) as [[[e|a] w2] tr];
      [reflexivity|].
    now destruct (run R (f a) w2) as [[r2 w3] tr2].
Qed.

Lemma run_tryCatch (A : Type) (m : Async A) (h : thrown -> Async A) (w : W) :
  run R (tryCatch m h) w
  = let '(r, w1, tr1) := run R m w in
    match r with
    | inr a => (inr a, w1, tr1)
    | inl e =>
        let '(r2, w2, tr2) := run R (h e) w1 in (r2, w2, tr1 ++ tr2)
    end.
Proof.
  revert w.
  induction m as [a|e|i k IH|ps k IH|k IH|l e k IH|t k IH]; intros w;
    cbn [tryCatch run].
  - reflexivity.
  - now destruct (run R (h e) w) as [[r2 w2] tr2].
  - destruct (list_children R i w) as [r w1]. rewrite IH.
    destruct (run R (k r) w1) as [[[e|a] w2] tr]; [|reflexivity].
    now destruct (run R (h e) w2) as [[r2 w3] tr2].
  - destruct (create_page R ps w) as [r w1]. rewrite IH.
    destruct (run R (k r) w1) as [[[e|a] w2] tr]; [|reflexivity].
    now destruct (run R (h e) w2) as [[r2 w3] tr2].
  - destruct (clock R w) as [d w1]. rewrite IH.
    destruct (run R (k d) w1) as [[[e|a] w2] tr]; [|reflexivity].
    now destruct (run R (h e) w2) as [[r2 w3] tr2].
  - rewrite IH.
    destruct (run R k w) as [[[e'|a] w2] tr]; [|reflexivity].
    now destruct (run R (h e') w2) as [[r2 w3] tr2].
  - rewrite IH.
    destruct (run R (k (convertContentToBlocks t)) w) as [[[e|a] w2] tr];
      [|reflexivity].
    now destruct (run R (h e) w2) as [[r2 w3] tr2].
Qed.

(** X11: when the listing is rejected, [handlePageContext] rejects with the
    same value, not wrapped, and does nothing else: the clock is not
    read and no page is created. *)
Theorem handlePageContext_listing_rejected
        (w : W) (parentId : str) (e : thrown) (w1 : W) :
  list_children R parentId w = (inl e, w1) ->
  run R (handlePageContext parentId) w
  = (inl e, w1, [EvList parentId (inl e)]).
Proof.
  intros H. unfold handlePageContext.
  cbn [run bind blocks_children_list]. rewrite H. reflexivity.
Qed.

(** X12: when the creation is rejected, [createDayPage] has read the clock
    and converted the content before, logs the rejection and throws an
    [Error] whose message is [Failed to create day page in Notion: ]
    followed by the string of the rejection; it lists nothing and
    tries no second creation. *)
Theorem createDayPage_creation_rejected
        (w : W) (monthPageId : str) (digest : Digest) :
  let '(date, w1) := clock R w in
  let params :=
    mkCreate monthPageId
             (monthLong date locale_en_US ++ js " "
              ++ getOrdinalSuffix (getDate date))
             (Some (convertContentToBlocks (content digest))) in
  forall e w2,
    create_page R params w1 = (inl e, w2) ->
    run R (createDayPage monthPageId digest) w
    = (inl (ErrorObject
              (js "Failed to create day page in Notion: " ++ toString e)),
       w2,
       [EvDate date; EvConvert (content digest); EvCreate params (inl e);
        EvConsoleError (js "Error creating day page in Notion:") e]).
Proof.
  destruct (clock R w) as [date w1] eqn:Hc. intros params e w2 Hp.
  unfold createDayPage.
  cbn [run bind tryCatch newDate this_convertContentToBlocks pages_create].
  rewrite Hc. cbn [run bind tryCatch settle]. fold params. rewrite Hp.
  reflexivity.
Qed.

(** X13: one run of [updateMorningBriefDb] lists the root once, first of
    all, creates at most one month page and at most one day page, and
    reads the clock at most twice. *)
Theorem updateMorningBriefDb_call_bounds (w : W) (digest : Digest) :
  let '(res, w', tr) := run R (updateMorningBriefDb digest) w in
  (exists outcome rest,
      tr = EvList defaultParentId outcome :: rest
      /\ filter isList rest = [])
  /\ length (filter isMonthCreate tr) <= 1
  /\ length (filter isDayCreate tr) <= 1
  /\ length (filter isDate tr) <= 2.
Proof.
  rewrite run_updateMorningBriefDb.
  destruct (list_children R defaultParentId w) as [[e|response] w1].
  { split; [eexists; eexists; split; reflexivity|]. cbn. lia. }
  destruct (clock R w1) as [date w2]. cbv zeta.
  destruct (find _ _) as [page|].
  - destruct (clock R w2) as [date' w4].
    destruct (create_page R _ w4) as [[e|dayPage] w5];
      (split; [eexists; eexists; split; reflexivity|]; cbn; lia).
  - destruct (create_page R _ w2) as [[e|newMonthPage] w3].
    { split; [eexists; eexists; split; reflexivity|]. cbn. lia. }
    destruct (clock R w3) as [date' w4].
    destruct (create_page R _ w4) as [[e|dayPage] w5];
      (split; [eexists; eexists; split; reflexivity|]; cbn; lia).
Qed.

End Composition.

Lemma handlePageContext_listing_rejected_witness :
  run (mkRemote (fun _ n => (inl (Rejected (js "unauthorized")), n))
                (fun _ n => (inr newPage, S n))
                (fun n => (sampleDate, n)))
      (handlePageContext defaultParentId) 0
  = (inl (Rejected (js "unauthorized")), 0,
     [EvList defaultParentId (inl (Rejected (js "unauthorized")))]).
Proof.
  apply (handlePageContext_listing_rejected
           nat
           (mkRemote (fun _ n => (inl (Rejected (js "unauthorized")), n))
                     (fun _ n => (inr newPage, S n))
                     (fun n => (sampleDate, n)))
           0 defaultParentId (Rejected (js "unauthorized")) 0).
  reflexivity.
Defined.

Lemma createDayPage_creation_rejected_witness :
  fst (fst (run (readOnlyStore sampleListing)
                (createDayPage (js "p2") (mkDigest (js "---"))) 0))
  = inl (ErrorObject
           (js "Failed to create day page in Notion: validation_error")).
Proof.
  rewrite (createDayPage_creation_rejected
             nat (readOnlyStore sampleListing) 0 (js "p2")
             (mkDigest (js "---")) (Rejected (js "validation_error")) 0
             eq_refl).
  reflexivity.
Defined.

(** ** splitContentIntoBlocks *)

Section ParagraphSplitter.

Lemma greedy_hashes (t : str) :
  greedy 35%N (matchStart []) t = Some (leadingHashes t).
Proof.
  induction t as [|y t IH]; [reflexivity|].
  cbn [greedy leadingHashes]. rewrite IH.
  now destruct (char_eqb y 35%N).
Qed.

Lemma greedy_hashes_space (t : str) :
  greedy 35%N (matchStart [Space]) t
  = match skipn (leadingHashes t) t with
    | x :: _ => if isTrimmed x then Some (S (leadingHashes t)) else None
    | [] => None
    end.
Proof.
  induction t as [|y t IH]; [reflexivity|].
  cbn [greedy leadingHashes]. rewrite IH.
  destruct (char_eqb y 35%N) eqn:E.
  - apply char_eqb_eq in E. subst y. cbn [skipn].
    destruct (skipn (leadingHashes t) t) as [|x r]; [reflexivity|].
    now destruct (isTrimmed x).
  - cbn [skipn matchStart]. now destruct (isTrimmed y).
Qed.

Lemma leadingHashes_repeat (n : nat) (rest : str) :
  startsWith (js "#") rest = false ->
  leadingHashes (repeat 35%N n ++ rest) = n
  /\ skipn n (repeat 35%N n ++ rest : str) = rest.
Proof.
  intros H. induction n as [|n [IH1 IH2]].
  - split; [|reflexivity]. destruct rest as [|c rest]; [reflexivity|].
    change (js "#") with [35%N] in H. rewrite startsWith_cons in H.
    simpl. now destruct (char_eqb c 35%N).
  - cbn [repeat app leadingHashes skipn]. rewrite char_eqb_refl, IH1.
    split; [reflexivity | exact IH2].
Qed.

Lemma splitParagraph_some (paragraph : str) :
  exists type text,
    splitParagraph paragraph = Some (mkAnyBlock type [PlainText text]).
Proof.
  unfold splitParagraph.
  destruct (startsWith (js "#") paragraph) eqn:H.
  - apply startsWith_inv in H. destruct H as [r ->].
    change (js "#" ++ r) with (35%N :: r).
    cbn [matchStart]. rewrite char_eqb_refl, greedy_hashes.
    cbn [option_map]. eexists. eexists. reflexivity.
  - destruct (startsWith (js "- ") paragraph);
      eexists; eexists; reflexivity.
Qed.

(** X14: every piece between two blank lines gives one block with one plain
    span, the empty piece too: the callback never returns [undefined],
    nothing is skipped or dropped, no link is decoded, and the result
    is never empty. *)
Theorem splitContentIntoBlocks_keeps_every_piece (text : str) :
  exists blocks,
    splitContentIntoBlocks text = map Some blocks
    /\ blocks <> []
    /\ length blocks = length (split (newline ++ newline) text)
    /\ Forall (fun b => exists c, any_rich_text b = [PlainText c]) blocks.
Proof.
  unfold splitContentIntoBlocks.
  assert (N : split (newline ++ newline) text <> [])
    by apply splitLoop_nonempty.
  induction (split (newline ++ newline) text) as [|piece pieces IH].
  - contradiction.
  - destruct (splitParagraph_some piece) as (ty & c & E).
    destruct pieces as [|piece' pieces].
    + exists [mkAnyBlock ty [PlainText c]]. cbn [map]. rewrite E.
      repeat split; [discriminate|].
      constructor; [now exists c | constructor].
    + destruct IH as (bs & E' & _ & L & F); [discriminate|].
      exists (mkAnyBlock ty [PlainText c] :: bs).
      cbn [map] in *. rewrite E, E'.
      repeat split; [discriminate | simpl; now rewrite L |].
      constructor; [now exists c | exact F].
Qed.

(** X15: A piece that begins with [n] hashes, [n] at least one, becomes a
    block of type [heading_n], whatever [n] is; the hashes are taken
    off the text only with the white space that follows them, and stay
    in it when none does. *)
Theorem heading_level_is_hash_count (n : nat) (rest : str) :
  startsWith (js "#") rest = false ->
  splitParagraph (repeat 35%N (S n) ++ rest)
  = Some (mkAnyBlock
            (js "heading_" ++ numberToString (Z.of_nat (S n)))
            [PlainText
               match rest with
               | x :: r =>
                   if isTrimmed x then r else repeat 35%N (S n) ++ rest
               | [] => repeat 35%N (S n) ++ rest
               end]).
Proof.
  intros H. destruct (leadingHashes_repeat n rest H) as [L K].
  unfold splitParagraph, removeStart.
  change (repeat 35%N (S n) ++ rest) with (35%N :: (repeat 35%N n ++ rest)).
  change (startsWith (js "#") (35%N :: (repeat 35%N n ++ rest))) with true.
  cbn [matchStart]. rewrite char_eqb_refl, greedy_hashes, greedy_hashes_space.
  rewrite L, K. cbn [option_map].
  destruct rest as [|x r]; [reflexivity|].
  destruct (isTrimmed x); [|reflexivity].
  cbn [option_map].
  assert (G : forall m, skipn (S m) (repeat 35%N m ++ x :: r : str) = r)
    by (induction m; [reflexivity | assumption]).
  do 4 f_equal. exact (G n).
Qed.

Lemma heading_level_is_hash_count_witness :
  splitParagraph (js "#### Deep")
  = Some (mkAnyBlock (js "heading_4") [PlainText (js "Deep")])
  /\ splitParagraph (js "#Title")
     = Some (mkAnyBlock (js "heading_1") [PlainText (js "#Title")]).
Proof.
  split.
  - apply (heading_level_is_hash_count 3 (js " Deep")). reflexivity.
  - apply (heading_level_is_hash_count 0 (js "Title")). reflexivity.
Defined.

End ParagraphSplitter.

(** ** The command: publishing and reporting *)

Import Command.

Section Publishing.

Variable W : Type.
Variable H : Host W.

Lemma exec_andThen (A B : Type) (m : Task A) (f : A -> Task B) (w : W) :
  exec H (andThen m f) w
  = let '(r, w1, tr1) := exec H m w in
    match r with
    | inl e => (inl e, w1, tr1)
    | inr a =>
        let '(r2, w2, tr2) := exec H (f a) w1 in (r2, w2, tr1 ++ tr2)
    end.
Proof.
  revert w.
  induction m as [a|e|t msg k IH|st k IH|k IH|l k IH|k IH|m k IH];
    intros w; cbn [andThen exec].
  - now destruct (exec H (f a) w) as [[r2 w2] tr2].
  - reflexivity.
  - destruct (send_notification H t msg w) as [r w1]. rewrite IH.
    destruct (exec H (k r) w1) as [[[e|a] w2] tr]; [reflexivity|].
    now destruct (exec H (f a) w2) as [[r2 w3] tr2].
  - destruct (update_metadata H st w) as [r w1]. rewrite IH.
    destruct (exec H (k r) w1) as [[[e|a] w2] tr]; [reflexivity|].
    now destruct (exec H (f a) w2) as [[r2 w3] tr2].
  - destruct (format_now H w) as [d w1]. rewrite IH.
    destruct (exec H (k d) w1) as [[[e|a] w2] tr]; [reflexivity|].
    now destruct (exec H (f a) w2) as [[r2 w3] tr2].
  - rewrite IH.
    destruct (exec H k w) as [[[e|a] w2] tr]; [reflexivity|].
    now destruct (exec H (f a) w2) as [[r2 w3] tr2].
  - destruct (gen_digest H w) as [r w1]. rewrite IH.
    destruct (exec H (k r) w1) as [[[e|a] w2] tr]; [reflexivity|].
    now destruct (exec H (f a) w2) as [[r2 w3] tr2].
  - destruct (run (store H) m w) as [[r w1] evs]. rewrite IH.
    destruct (exec H (k r) w1) as [[[e|a] w2] tr]; [reflexivity|].
    destruct (exec H (f a) w2) as [[r2 w3] tr2].
    now rewrite app_assoc.
Qed.

Lemma exec_catch (A : Type) (m : Task A) (h : thrown -> Task A) (w : W) :
  exec H (catch m h) w
  = let '(r, w1, tr1) := exec H m w in
    match r with
    | inr a => (inr a, w1, tr1)
    | inl e =>
        let '(r2, w2, tr2) := exec H (h e) w1 in (r2, w2, tr1 ++ tr2)
    end.
Proof.
  revert w.
  induction m as [a|e|t msg k IH|st k IH|k IH|l k IH|k IH|m k IH];
    intros w; cbn [catch exec].
  - reflexivity.
  - now destruct (exec H (h e) w) as [[r2 w2] tr2].
  - destruct (send_notification H t msg w) as [r w1]. rewrite IH.
    destruct (exec H (k r) w1) as [[[e|a] w2] tr]; [|reflexivity].
    now destruct (exec H (h e) w2) as [[r2 w3] tr2].
  - destruct (update_metadata H st w) as [r w1]. rewrite IH.
    destruct (exec H (k r) w1) as [[[e|a] w2] tr]; [|reflexivity].
    now destruct (exec H (h e) w2) as [[r2 w3] tr2].
  - destruct (format_now H w) as [d w1]. rewrite IH.
    destruct (exec H (k d) w1) as [[[e|a] w2] tr]; [|reflexivity].
    now destruct (exec H (h e) w2) as [[r2 w3] tr2].
  - rewrite IH.
    destruct (exec H k w) as [[[e|a] w2] tr]; [|reflexivity].
    now destruct (exec H (h e) w2) as [[r2 w3] tr2].
  - destruct (gen_digest H w) as [r w1]. rewrite IH.
    destruct (exec H (k r) w1) as [[[e|a] w2] tr]; [|reflexivity].
    now destruct (exec H (h e) w2) as [[r2 w3] tr2].
  - destruct (run (store H) m w) as [[r w1] evs]. rewrite IH.
    destruct (exec H (k r) w1) as [[[e|a] w2] tr]; [|reflexivity].
    destruct (exec H (h e) w2) as [[r2 w3] tr2].
    now rewrite app_assoc.
Qed.

Lemma snoc2 (A : Type) (l : list A) (a b : A) :
  l ++ [a; b] = (l ++ [a]) ++ [b].
Proof. now rewrite <- app_assoc. Qed.

(** What [handleSuccess] does, call by call. *)
Lemma exec_handleSuccess (w : W) (digest : Digest) :
  exec H (handleSuccess digest) w
  = let '(sent, w1) :=
      send_notification H (fst digestSuccess) (snd digestSuccess) w in
    match sent with
    | inl e =>
        (inl e, w1,
         [Notified (fst digestSuccess) (snd digestSuccess) sent])
    | inr _ =>
        let '(stamp, w2) := format_now H w1 in
        let subtitle := js "Last auto digest at: " ++ stamp in
        let '(updated, w3) := update_metadata H subtitle w2 in
        let head :=
          [Notified (fst digestSuccess) (snd digestSuccess) sent;
           Formatted stamp; MetadataUpdated subtitle updated] in
        match updated with
        | inl e => (inl e, w3, head)
        | inr _ =>
            let '(r, w4, evs) :=
              run (store H) (updateMorningBriefDb digest) w3 in
            let failed (error : thrown) (w5 : W) (tr : list happened) :=
              let '(told, w6) :=
                send_notification H (fst notionFailed) (snd notionFailed)
                                  w5 in
              (told, w6,
               tr ++ [Logged (LogError (js "Failed to update Notion:") error);
                      Notified (fst notionFailed) (snd notionFailed) told]) in
            match r with
            | inl error => failed error w4 (head ++ map Store evs)
            | inr result =>
                let '(told, w5) :=
                  send_notification H (fst notionSuccess)
                                    (snd notionSuccess) w4 in
                let tr :=
                  head ++ map Store evs
                  ++ [Logged (LogPage (js "Notion update successful:") result);
                      Notified (fst notionSuccess) (snd notionSuccess) told] in
                match told with
                | inl error => failed error w5 tr
                | inr u => (inr u, w5, tr)
                end
            end
        end
    end.
Proof.
  unfold handleSuccess, digestSuccess, notionSuccess, notionFailed.
  cbn [fst snd exec andThen catch sendNotification dayjs_format
           updateCommandMetadata].
  destruct (send_notification H _ _ w) as [[e|[]] w1];
    cbn [exec andThen catch awaited]; [reflexivity|].
  destruct (format_now H w1) as [stamp w2].
  cbn [exec andThen catch awaited].
  destruct (update_metadata H _ w2) as [[e|[]] w3];
    cbn [exec andThen catch awaited notionService_updateMorningBriefDb
              console]; [reflexivity|].
  destruct (run (store H) _ w3) as [[[error|result] w4] evs];
    cbn [exec andThen catch awaited console sendNotification].
  - destruct (send_notification H _ _ w4) as [[e|[]] w6];
      cbn [exec andThen catch awaited app];
      rewrite ?app_nil_r, <- ?app_assoc; reflexivity.
  - destruct (send_notification H _ _ w4) as [[e|[]] w5];
      cbn [exec andThen catch awaited console sendNotification].
    + destruct (send_notification H _ _ w5) as [[e'|[]] w6];
        cbn [exec andThen catch awaited app];
        rewrite ?app_nil_r, <- ?app_assoc; reflexivity.
    + rewrite ?app_nil_r, <- ?app_assoc. reflexivity.
Qed.

(** X16: [handleSuccess] contacts the document store only after the first
    notification and the metadata update went through: when one of the
    two is rejected it rejects with that value and nothing else is
    done. *)
Theorem handleSuccess_stops_early (w : W) (digest : Digest) :
  (forall e w1,
      send_notification H (fst digestSuccess) (snd digestSuccess) w
      = (inl e, w1) ->
      exec H (handleSuccess digest) w
      = (inl e, w1,
         [Notified (fst digestSuccess) (snd digestSuccess) (inl e)]))
  /\
  (forall w1 stamp w2 e w3,
      send_notification H (fst digestSuccess) (snd digestSuccess) w
      = (inr tt, w1) ->
      format_now H w1 = (stamp, w2) ->
      update_metadata H (js "Last auto digest at: " ++ stamp) w2
      = (inl e, w3) ->
      exec H (handleSuccess digest) w
      = (inl e, w3,
         [Notified (fst digestSuccess) (snd digestSuccess) (inr tt);
          Formatted stamp;
          MetadataUpdated (js "Last auto digest at: " ++ stamp) (inl e)])).
Proof.
  split.
  - intros e w1 E. rewrite exec_handleSuccess, E. reflexivity.
  - intros w1 stamp w2 e w3 E1 E2 E3.
    rewrite exec_handleSuccess, E1, E2. cbv zeta. rewrite E3. reflexivity.
Qed.

(** X17: A failure of the document store does not leave [handleSuccess]:
    it is logged, the notification [Notion Update Failed] is sent, and
    the outcome of that notification is the outcome of the call;
    [Notion Update Success] is not sent. *)
Theorem handleSuccess_reports_store_failure
        (w : W) (digest : Digest) (w1 : W) (stamp : str) (w2 w3 : W)
        (error : thrown) (w4 : W) (evs : list event)
        (told : thrown + unit) (w5 : W) :
  send_notification H (fst digestSuccess) (snd digestSuccess) w
  = (inr tt, w1) ->
  format_now H w1 = (stamp, w2) ->
  update_metadata H (js "Last auto digest at: " ++ stamp) w2 = (inr tt, w3) ->
  run (store H) (updateMorningBriefDb digest) w3 = (inl error, w4, evs) ->
  send_notification H (fst notionFailed) (snd notionFailed) w4
  = (told, w5) ->
  exec H (handleSuccess digest) w
  = (told, w5,
     [Notified (fst digestSuccess) (snd digestSuccess) (inr tt);
      Formatted stamp;
      MetadataUpdated (js "Last auto digest at: " ++ stamp) (inr tt)]
     ++ map Store evs
     ++ [Logged (LogError (js "Failed to update Notion:") error);
         Notified (fst notionFailed) (snd notionFailed) told]).
Proof.
  intros E1 E2 E3 E4 E5.
  rewrite exec_handleSuccess, E1, E2. cbv zeta. rewrite E3, E4, E5.
  now rewrite <- app_assoc.
Qed.

(** X18: when the store has the page and the notification of the success
    is rejected, that rejection is handled like a failure of the
    store: [Notion Update Failed] is sent after it. *)
Theorem handleSuccess_success_notification_rejected
        (w : W) (digest : Digest) (w1 : W) (stamp : str) (w2 w3 : W)
        (result : PageObject) (w4 : W) (evs : list event)
        (error : thrown) (w5 : W) (told : thrown + unit) (w6 : W) :
  send_notification H (fst digestSuccess) (snd digestSuccess) w
  = (inr tt, w1) ->
  format_now H w1 = (stamp, w2) ->
  update_metadata H (js "Last auto digest at: " ++ stamp) w2 = (inr tt, w3) ->
  run (store H) (updateMorningBriefDb digest) w3 = (inr result, w4, evs) ->
  send_notification H (fst notionSuccess) (snd notionSuccess) w4
  = (inl error, w5) ->
  send_notification H (fst notionFailed) (snd notionFailed) w5
  = (told, w6) ->
  exec H (handleSuccess digest) w
  = (told, w6,
     [Notified (fst digestSuccess) (snd digestSuccess) (inr tt);
      Formatted stamp;
      MetadataUpdated (js "Last auto digest at: " ++ stamp) (inr tt)]
     ++ map Store evs
     ++ [Logged (LogPage (js "Notion update successful:") result);
         Notified (fst notionSuccess) (snd notionSuccess) (inl error);
         Logged (LogError (js "Failed to update Notion:") error);
         Notified (fst notionFailed) (snd notionFailed) told]).
Proof.
  intros E1 E2 E3 E4 E5 E6.
  rewrite exec_handleSuccess, E1, E2. cbv zeta. rewrite E3, E4, E5, E6.
  now rewrite <- !app_assoc.
Qed.

(** X19: whatever the host and the store do, [handleSuccess] begins with
    the notification [Daily Digest Success], and when it rejects, it
    rejects with the rejection of the last call it made, a notification
    or the metadata update: an error of the store is never what it
    throws. *)
Theorem handleSuccess_rejects_with_own_rejection (w : W) (digest : Digest) :
  let '(res, w', tr) := exec H (handleSuccess digest) w in
  (exists sent rest,
      tr = Notified (fst digestSuccess) (snd digestSuccess) sent :: rest)
  /\ (forall e, res = inl e ->
                exists pre last, tr = pre ++ [last]
                                 /\ rejections [last] = [e]).
Proof.
  rewrite exec_handleSuccess.
  destruct (send_notification H _ _ w) as [[e|[]] w1].
  { split; [eexists; eexists; reflexivity|].
    intros e' [= <-]. now exists [], (Notified (fst digestSuccess)
                                                (snd digestSuccess) (inl e)). }
  destruct (format_now H w1) as [stamp w2]. cbv zeta.
  destruct (update_metadata H _ w2) as [[e|[]] w3].
  { split; [eexists; eexists; reflexivity|].
    intros e' [= <-]. eexists [_; _], _. split; reflexivity. }
  destruct (run (store H) _ w3) as [[[error|result] w4] evs].
  - destruct (send_notification H _ _ w4) as [[e|[]] w6].
    + split; [eexists; eexists; reflexivity|].
      intros e' [= <-]. eexists. eexists. split; [apply snoc2|reflexivity].
    + split; [eexists; eexists; reflexivity | discriminate].
  - destruct (send_notification H _ _ w4) as [[e|[]] w5].
    + destruct (send_notification H _ _ w5) as [[e'|[]] w6].
      * split; [eexists; eexists; reflexivity|].
        intros e'' [= <-]. eexists. eexists.
        split; [apply snoc2|reflexivity].
      * split; [eexists; eexists; reflexivity | discriminate].
    + split; [eexists; eexists; reflexivity | discriminate].
Qed.

End Publishing.

Lemma handleSuccess_stops_early_witness :
  exec (deafHost (storeWith sampleListing))
       (handleSuccess (mkDigest (js "---"))) 0
  = (inl (Rejected (js "no notifier")), 0,
     [Notified (fst digestSuccess) (snd digestSuccess)
               (inl (Rejected (js "no notifier")))]).
Proof.
  apply (proj1 (handleSuccess_stops_early
                  nat (deafHost (storeWith sampleListing)) 0
                  (mkDigest (js "---")))).
  reflexivity.
Defined.

Lemma handleSuccess_reports_store_failure_witness :
  fst (fst (exec (quietHost (readOnlyStore sampleListing))
                 (handleSuccess (mkDigest (js "---"))) 0))
  = inr tt.
Proof.
  rewrite (handleSuccess_reports_store_failure
             nat (quietHost (readOnlyStore sampleListing)) 0
             (mkDigest (js "---")) 0 (js "2024-03-03 08:00") 0 0
             (notionError (dayPageError (Rejected (js "validation_error"))))
             0
             (snd (run (readOnlyStore sampleListing)
                       (updateMorningBriefDb (mkDigest (js "---"))) 0))
             (inr tt) 0
             eq_refl eq_refl eq_refl eq_refl eq_refl).
  reflexivity.
Defined.

Lemma handleSuccess_success_notification_rejected_witness :
  titlesSent (snd (exec busyHost (handleSuccess (mkDigest (js "---"))) 0))
  = [fst digestSuccess; fst notionSuccess; fst notionFailed].
Proof.
  rewrite (handleSuccess_success_notification_rejected
             nat busyHost 0 (mkDigest (js "---")) 0 (js "2024-03-03 08:00")
             0 0 newPage 1
             (snd (run (storeWith sampleListing)
                       (updateMorningBriefDb (mkDigest (js "---"))) 0))
             (Rejected (js "busy")) 1 (inr tt) 1
             eq_refl eq_refl eq_refl eq_refl eq_refl eq_refl).
  reflexivity.
Defined.

Lemma handleSuccess_rejects_with_own_rejection_witness :
  exists pre last,
    snd (exec (deafHost (storeWith sampleListing))
              (handleSuccess (mkDigest (js "---"))) 0)
    = pre ++ [last]
    /\ rejections [last] = [Rejected (js "no notifier")].
Proof.
  exact (proj2 (handleSuccess_rejects_with_own_rejection
                  nat (deafHost (storeWith sampleListing)) 0
                  (mkDigest (js "---")))
               (Rejected (js "no notifier")) eq_refl).
Defined.

(** ** The command: generating *)

Section Generating.

Variable W : Type.
Variable H : Host W.
Variable matchError : thrown -> errorCode -> bool.

(** What the [catch] block of [handleGenDigest] does with a caught
    value when errors are enabled. *)
Let reported (err : thrown) (w : W) : (thrown + unit) * W * list happened :=
  if matchError err NO_API_KEY then
    let '(told, w1) :=
      send_notification H (fst digestSuccess) (snd digestSuccess) w in
    (told, w1, [Notified (fst digestSuccess) (snd digestSuccess) told])
  else if matchError err NO_FEEDS then
    let '(told, w1) :=
      send_notification H (fst digestFailed) (snd digestFailed) w in
    (told, w1, [Notified (fst digestFailed) (snd digestFailed) told])
  else (inr tt, w, []).

Lemma exec_handleGenDigest
      (onSuccess : Digest -> Task unit) (enableError : bool) (w : W) :
  exec H (handleGenDigest matchError onSuccess enableError) w
  = let '(made, w1) := gen_digest H w in
    let head := [Logged (LogText (js "start to gen digest...")); Generated made] in
    let caught (err : thrown) (w2 : W) (tr : list happened) :=
      if enableError
      then let '(r, w3, tr') := reported err w2 in (r, w3, tr ++ tr')
      else (inr tt, w2, tr) in
    match made with
    | inl err => caught err w1 head
    | inr digest =>
        let '(r, w2, tr) := exec H (onSuccess digest) w1 in
        match r with
        | inl err => caught err w2 (head ++ tr)
        | inr u => (inr u, w2, head ++ tr)
        end
    end.
Proof.
  unfold handleGenDigest, reported. rewrite exec_catch.
  cbn [exec andThen console bizGenDigest].
  destruct (gen_digest H w) as [[err|digest] w1]; cbn [awaited andThen exec].
  - destruct enableError; cbn [negb exec]; [|reflexivity].
    destruct (matchError err NO_API_KEY).
    { cbn [exec sendNotification fst snd digestSuccess].
      destruct (send_notification H _ _ w1) as [[e|[]] w2]; reflexivity. }
    destruct (matchError err NO_FEEDS); [|reflexivity].
    cbn [exec sendNotification fst snd digestFailed].
    destruct (send_notification H _ _ w1) as [[e|[]] w2]; reflexivity.
  - destruct (exec H (onSuccess digest) w1) as [[[err|[]] w2] tr];
      [|reflexivity].
    destruct enableError; cbn [negb exec];
      [|rewrite ?app_nil_r; reflexivity].
    destruct (matchError err NO_API_KEY).
    { cbn [exec sendNotification fst snd digestSuccess].
      destruct (send_notification H _ _ w2) as [[e|[]] w3]; reflexivity. }
    destruct (matchError err NO_FEEDS);
      [|cbn [exec]; rewrite ?app_nil_r; reflexivity].
    cbn [exec sendNotification fst snd digestFailed].
    destruct (send_notification H _ _ w2) as [[e|[]] w3]; reflexivity.
Qed.

(** X20: with errors disabled, [handleGenDigest] never rejects and sends
    no notification of its own: a failure of the generation, or of
    [onSuccess], ends the call in silence. *)
Theorem handleGenDigest_silent (onSuccess : Digest -> Task unit) (w : W) :
  let '(made, w1) := gen_digest H w in
  match made with
  | inl err =>
      exec H (handleGenDigest matchError onSuccess false) w
      = (inr tt, w1,
         [Logged (LogText (js "start to gen digest...")); Generated made])
  | inr digest =>
      let '(r, w2, tr) := exec H (onSuccess digest) w1 in
      exec H (handleGenDigest matchError onSuccess false) w
      = (inr tt, w2,
         Logged (LogText (js "start to gen digest...")) :: Generated made :: tr)
  end.
Proof.
  rewrite exec_handleGenDigest.
  destruct (gen_digest H w) as [[err|digest] w1]; [reflexivity|].
  destruct (exec H (onSuccess digest) w1) as [[[err|[]] w2] tr]; reflexivity.
Qed.

(** X21: with errors enabled, a failed generation is reported by what
    [matchError] says of the caught value: [Daily Digest Success] for
    the missing key, asked first, [Daily Digest Failed] for missing
    feeds, and nothing at all for any other error, which ends the call
    without a rejection. *)
Theorem handleGenDigest_reports
        (onSuccess : Digest -> Task unit) (w : W) (err : thrown) (w1 : W) :
  gen_digest H w = (inl err, w1) ->
  let head :=
    [Logged (LogText (js "start to gen digest...")); Generated (inl err)] in
  (matchError err NO_API_KEY = true ->
   let '(told, w2) :=
     send_notification H (fst digestSuccess) (snd digestSuccess) w1 in
   exec H (handleGenDigest matchError onSuccess true) w
   = (told, w2,
      head ++ [Notified (fst digestSuccess) (snd digestSuccess) told]))
  /\
  (matchError err NO_API_KEY = false ->
   matchError err NO_FEEDS = true ->
   let '(told, w2) :=
     send_notification H (fst digestFailed) (snd digestFailed) w1 in
   exec H (handleGenDigest matchError onSuccess true) w
   = (told, w2,
      head ++ [Notified (fst digestFailed) (snd digestFailed) told]))
  /\
  (matchError err NO_API_KEY = false ->
   matchError err NO_FEEDS = false ->
   exec H (handleGenDigest matchError onSuccess true) w = (inr tt, w1, head)).
Proof.
  intros E head. rewrite exec_handleGenDigest, E. unfold reported.
  repeat split.
  - intros ->.
    destruct (send_notification H _ _ w1) as [told w2]. reflexivity.
  - intros -> ->.
    destruct (send_notification H _ _ w1) as [told w2]. reflexivity.
  - intros -> ->. reflexivity.
Qed.

End Generating.

Lemma handleGenDigest_reports_witness :
  exec (barrenHost (Rejected (js "timeout")))
       (handleGenDigest (fun _ _ => false) handleSuccess true) 0
  = (inr tt, 0,
     [Logged (LogText (js "start to gen digest..."));
      Generated (inl (Rejected (js "timeout")))]).
Proof.
  apply (proj2 (proj2 (handleGenDigest_reports
                         nat (barrenHost (Rejected (js "timeout")))
                         (fun _ _ => false) handleSuccess 0
                         (Rejected (js "timeout")) 0 eq_refl)));
    reflexivity.
Defined.

(** ** The command: from the digest to the notification *)

Section EndToEnd.

Variable W : Type.
Variable H : Host W.
Variable matchError : thrown -> errorCode -> bool.

Lemma update_failures (R : Remote W) (w : W) (digest : Digest) :
  let '(r, w', evs) := run R (updateMorningBriefDb digest) w in
  match r with
  | inl _ => failures evs <> []
  | inr _ => failures evs = []
  end.
Proof.
  rewrite run_updateMorningBriefDb.
  destruct (list_children R defaultParentId w) as [[e|response] w1];
    [discriminate|].
  destruct (clock R w1) as [date w2]. cbv zeta.
  destruct (find _ _) as [page|].
  - destruct (clock R w2) as [date' w4].
    destruct (create_page R _ w4) as [[e|dayPage] w5];
      [discriminate | reflexivity].
  - destruct (create_page R _ w2) as [[e|newMonthPage] w3]; [discriminate|].
    destruct (clock R w3) as [date' w4].
    destruct (create_page R _ w4) as [[e|dayPage] w5];
      [discriminate | reflexivity].
Qed.

Lemma titlesSent_app (a b : list happened) :
  titlesSent (a ++ b) = titlesSent a ++ titlesSent b.
Proof.
  induction a as [|[] a IH]; simpl; rewrite ?IH; reflexivity.
Qed.

Lemma storeEvents_app (a b : list happened) :
  storeEvents (a ++ b) = storeEvents a ++ storeEvents b.
Proof.
  induction a as [|[] a IH]; simpl; rewrite ?IH; reflexivity.
Qed.

Lemma titlesSent_store (evs : list event) : titlesSent (map Store evs) = [].
Proof. induction evs; simpl; auto. Qed.

Lemma storeEvents_store (evs : list event) :
  storeEvents (map Store evs) = evs.
Proof. induction evs; simpl; congruence. Qed.

(** X22: when the host delivers the notifications and accepts the metadata
    update, a digest that was generated is always reported: whatever
    the document store does, [handleGenDigest] with [handleSuccess]
    ends without a rejection, after [Daily Digest Success] and then
    [Notion Update Success] if no call of the store was rejected,
    [Notion Update Failed] if one was. *)
Theorem generated_digest_is_reported
        (enableError : bool) (w : W) (digest : Digest) (w1 : W) :
  (forall t m w0, fst (send_notification H t m w0) = inr tt) ->
  (forall s w0, fst (update_metadata H s w0) = inr tt) ->
  gen_digest H w = (inr digest, w1) ->
  let '(res, w', tr) :=
    exec H (handleGenDigest matchError handleSuccess enableError) w in
  res = inr tt
  /\ titlesSent tr
     = [fst digestSuccess;
        match failures (storeEvents tr) with
        | [] => fst notionSuccess
        | _ :: _ => fst notionFailed
        end].
Proof.
  intros Hs Hm Hg.
  rewrite exec_handleGenDigest, Hg. cbv zeta. rewrite exec_handleSuccess.
  assert (S1 := Hs (fst digestSuccess) (snd digestSuccess) w1).
  destruct (send_notification H _ _ w1) as [s1 w2]. simpl in S1. subst s1.
  destruct (format_now H w2) as [stamp w3]. cbv zeta.
  assert (M := Hm (js "Last auto digest at: " ++ stamp) w3).
  destruct (update_metadata H _ w3) as [m1 w4]. simpl in M. subst m1.
  assert (F := update_failures (store H) w4 digest).
  destruct (run (store H) _ w4) as [[[error|result] w5] evs].
  - assert (S2 := Hs (fst notionFailed) (snd notionFailed) w5).
    destruct (send_notification H _ _ w5) as [s2 w6]. simpl in S2. subst s2.
    split; [reflexivity|].
    rewrite !titlesSent_app, !storeEvents_app, titlesSent_store,
      storeEvents_store.
    cbn [titlesSent storeEvents app]. rewrite app_nil_r.
    destruct (failures evs); [contradiction | reflexivity].
  - assert (S2 := Hs (fst notionSuccess) (snd notionSuccess) w5).
    destruct (send_notification H _ _ w5) as [s2 w6]. simpl in S2. subst s2.
    split; [reflexivity|].
    rewrite !titlesSent_app, !storeEvents_app, titlesSent_store,
      storeEvents_store.
    cbn [titlesSent storeEvents app]. rewrite app_nil_r, F. reflexivity.
Qed.

End EndToEnd.

Lemma generated_digest_is_reported_witness :
  titlesSent
    (snd (exec (quietHost (readOnlyStore sampleListing))
               (handleGenDigest (fun _ _ => false) handleSuccess true) 0))
  = [fst digestSuccess; fst notionFailed].
Proof.
  apply (generated_digest_is_reported
           nat (quietHost (readOnlyStore sampleListing)) (fun _ _ => false)
           true 0 (mkDigest (js "---")) 0);
    reflexivity.
Defined.
